(** * augur.io: reading and writing sequence records

    A shallow embedding of [augur/io.py] ([read_sequences] and
    [write_sequences]) together with the two collaborators the module glues
    together: the compression-transparent opener ([xopen]) and the sequence
    codec ([Bio.SeqIO.parse] / [Bio.SeqIO.write]).

    - Python objects reaching the two functions are the inductive [pyobj].
    - Exceptions are values of [exn]; a computation is a function from the
      world to a result-or-exception and a new world ([IO]).
    - The world holds the files as the opener shows them (text, whatever the
      compression on disk), the table of open handles and the trace of the
      storage operations performed so far.
    - [read_sequences] is a generator function: calling it builds a
      [generator] and runs nothing; [gen_next] runs the body up to the next
      [yield]; [gen_close] is what Python does to a generator that is closed
      or dropped. *)

From stdpp Require Import gmap strings list pretty.
From Stdlib Require Import ZArith Lia Ascii.

Local Open Scope string_scope.
Local Open Scope Z_scope.
Local Open Scope list_scope.

(** ** Python values and exceptions *)

(** [Bio.SeqRecord.SeqRecord]: the module never looks inside a record. *)
Record SeqRecord := mkSeqRecord {
  rec_id : string;
  rec_seq : string;
  rec_description : string
}.

(** The shapes of object the two functions are called with: a [str], a
    [pathlib.Path], a list, a single record, and [None] standing for an
    object that is neither path-like nor iterable. *)
#[warnings="-register-all"]
Inductive pyobj :=
| PyStr (s : string)
| PyPath (s : string)
| PyList (items : list pyobj)
| PyRecord (r : SeqRecord)
| PyNone.

Record exn := mkExn { exn_class : string; exn_msg : string }.

Definition TypeError (msg : string) : exn := mkExn "TypeError" msg.
Definition ValueError (msg : string) : exn := mkExn "ValueError" msg.
Definition FileNotFoundError (key : string) : exn := mkExn "FileNotFoundError" key.

Definition is_TypeError (e : exn) : bool := bool_decide (exn_class e = "TypeError").

(** [isinstance(o, Bio.SeqRecord.SeqRecord)] *)
Definition isinstance_SeqRecord (o : pyobj) : bool :=
  match o with
  | PyRecord _ => true
  | _ => false
  end.

(** [os.fspath]: the string of a path-like object, [None] when the object
    is not path-like. *)
Definition fspath (o : pyobj) : option string :=
  match o with
  | PyStr s | PyPath s => Some s
  | _ => None
  end.

Fixpoint chars (s : string) : list pyobj :=
  match s with
  | EmptyString => []
  | String c s' => PyStr (String c EmptyString) :: chars s'
  end.

(** [iter(o)] run to the end: a list gives its items, a string its
    characters, a record the letters of its sequence; a [Path] and [None]
    are not iterable. *)
Definition py_iter (o : pyobj) : exn + list pyobj :=
  match o with
  | PyList items => inr items
  | PyStr s => inr (chars s)
  | PyRecord r => inr (chars (rec_seq r))
  | PyPath _ => inl (TypeError "'PosixPath' object is not iterable")
  | PyNone => inl (TypeError "'NoneType' object is not iterable")
  end.

(** ** The world: files, handles and the trace of storage operations *)

Inductive open_mode := ModeRead | ModeWrite | ModeAppend.

(** [xopen] accepts the mode strings below; "r" and "w" are text modes. *)
Definition parse_mode (mode : string) : option open_mode :=
  if bool_decide (mode = "r") || bool_decide (mode = "rt") then Some ModeRead
  else if bool_decide (mode = "w") || bool_decide (mode = "wt") then Some ModeWrite
  else if bool_decide (mode = "a") || bool_decide (mode = "at") then Some ModeAppend
  else None.

Inductive event :=
| EvOpen (key : string) (m : open_mode) (h : nat)
| EvOpenFailed (m : open_mode) (e : exn)
| EvWrite (h : nat) (text : string)
| EvClose (h : nat).

Record World := mkWorld {
  files : gmap string string;
  read_faults : gmap string exn;
  write_faults : gmap string exn;
  handles : gmap nat (string * open_mode);
  trace : list event
}.

Definition set_files (f : gmap string string) (w : World) : World :=
  mkWorld f (read_faults w) (write_faults w) (handles w) (trace w).
Definition set_handles (hs : gmap nat (string * open_mode)) (w : World) : World :=
  mkWorld (files w) (read_faults w) (write_faults w) hs (trace w).
Definition log (ev : event) (w : World) : World :=
  mkWorld (files w) (read_faults w) (write_faults w) (handles w) (trace w ++ [ev]).

(** The world once [key] is open in mode [m] under the descriptor [h], the
    files being [f]. *)
Definition register (key : string) (m : open_mode) (h : nat)
    (f : gmap string string) (w : World) : World :=
  mkWorld f (read_faults w) (write_faults w) (<[h := (key, m)]> (handles w))
          (trace w ++ [EvOpen key m h]).

(** Handles that are open. *)
Definition open_handles (w : World) : gset nat := dom (handles w).

(** ** Computations that touch the world and may raise *)

Definition IO (A : Type) : Type := World -> (exn + A) * World.

Definition ret {A} (a : A) : IO A := fun w => (inr a, w).
Definition raise {A} (e : exn) : IO A := fun w => (inl e, w).
Definition bind {A B} (m : IO A) (k : A -> IO B) : IO B :=
  fun w => match m w with
           | (inl e, w') => (inl e, w')
           | (inr a, w') => k a w'
           end.

#[export] Instance IO_ret : MRet IO := @ret.
#[export] Instance IO_bind : MBind IO := fun A B k m => bind m k.

(** ** The path layer and the codec: what the module is given *)

(** [normpath] is what [pathlib.Path(s)] keeps of the string [s];
    [resolve] is the file the storage layer reaches for a path string. *)
Class PathLayer := {
  normpath : string -> string;
  resolve : string -> string
}.

(** [seqio_parse content format] is [Bio.SeqIO.parse] on a stream with that
    content: it raises at once ([inl]), or gives the records the iterator
    yields and how it ends ([None]: exhausted; [Some e]: raises [e]).
    [seqio_write sequences format] is [Bio.SeqIO.write]: the text it sends to
    the stream, and the count it returns or the exception it raises. *)
Class Codec := {
  seqio_parse : string -> string -> exn + (list SeqRecord * option exn);
  seqio_write : pyobj -> string -> string * (exn + Z)
}.

Section Operations.
Context `{PathLayer} `{Codec}.

(** ** The opener and its handles

    [xopen] and the handles it gives stand outside the module.  They are
    modelled after Python's [open]: "r" needs the file, "wt" creates or
    truncates it, "at" keeps what it holds; compression is invisible, the
    world keeps the text a reader would see.  Failures of the storage
    (permissions, directories, ...) are the faults the world records for a
    file. *)

(** The lowest descriptor not in use. *)
Definition fresh_handle (w : World) : nat := fresh (open_handles w).

(** Opening the file [key]: a fault recorded for the key is raised; reading
    a missing file raises [FileNotFoundError]; writing creates or truncates
    the file, appending creates it or keeps it. *)
Definition open_key (key : string) (m : open_mode) : IO nat := fun w =>
  let fault := match m with
               | ModeRead => read_faults w !! key
               | _ => write_faults w !! key
               end in
  let missing := match m, files w !! key with
                 | ModeRead, None => Some (FileNotFoundError key)
                 | _, _ => None
                 end in
  match (match fault with Some e => Some e | None => missing end) with
  | Some e => (inl e, log (EvOpenFailed m e) w)
  | None =>
    let h := fresh_handle w in
    let f := match m with
             | ModeRead => files w
             | ModeWrite => <[key := ""]> (files w)
             | ModeAppend => <[key := default "" (files w !! key)]> (files w)
             end in
    (inr h, register key m h f w)
  end.

(** [xopen(filename, mode)] *)
Definition xopen (filename : pyobj) (mode : string) : IO nat :=
  match parse_mode mode with
  | None => raise (ValueError "Mode not supported")
  | Some m =>
    match fspath filename with
    | None => raise (TypeError "expected str, bytes or os.PathLike object")
    | Some s => open_key (resolve s) m
    end
  end.

(** [handle.close()], also what leaving a [with] block does. *)
Definition handle_close (h : nat) (w : World) : World :=
  log (EvClose h) (set_handles (delete h (handles w)) w).

Definition handle_write (h : nat) (text : string) : IO () := fun w =>
  match handles w !! h with
  | Some (key, ModeWrite) | Some (key, ModeAppend) =>
    (inr (), log (EvWrite h text)
                 (set_files (<[key := default "" (files w !! key) +:+ text]> (files w)) w))
  | _ => (inl (ValueError "not writable"), w)
  end.

Definition handle_read (h : nat) : IO string := fun w =>
  match handles w !! h with
  | Some (key, ModeRead) => (inr (default "" (files w !! key)), w)
  | _ => (inl (ValueError "not readable"), w)
  end.

(** [Bio.SeqIO.parse(handle, format)]: the iterator over what the handle
    holds, as the records it will yield and its ending.  The content is
    taken when the iterator is made: a file is not rewritten while a
    generator reads it. *)
Definition SeqIO_parse (handle : nat) (format : string)
  : IO (list SeqRecord * option exn) :=
  content ← handle_read handle;
  match seqio_parse content format with
  | inl e => raise e
  | inr sequences => mret sequences
  end.

(** [Bio.SeqIO.write(sequences, handle, format)] *)
Definition SeqIO_write (sequences : pyobj) (handle : nat) (format : string) : IO Z :=
  let '(text, outcome) := seqio_write sequences format in
  _ ← handle_write handle text;
  match outcome with
  | inl e => raise e
  | inr count => mret count
  end.

(** [with acquire as handle: body]: the handle is closed however the body
    ends. *)
Definition with_handle {A} (acquire : IO nat) (body : nat -> IO A) : IO A := fun w =>
  match acquire w with
  | (inl e, w1) => (inl e, w1)
  | (inr handle, w1) =>
    let '(r, w2) := body handle w1 in (r, handle_close handle w2)
  end.

(** ** write_sequences *)

Definition single_record_error : exn :=
  TypeError "Input sequences must be an iterable of BioPython SeqRecord objects; individual SeqRecord objects are not supported.".

Definition write_sequences (sequences path : pyobj) (format : string) : IO Z :=
  if isinstance_SeqRecord sequences then raise single_record_error
  else
    sequences_written ← with_handle (xopen path "wt")
                          (fun handle => SeqIO_write sequences handle format);
    mret sequences_written.

(** ** read_sequences *)

(** [pathlib.Path(o)] *)
Definition Path (o : pyobj) : exn + pyobj :=
  match o with
  | PyStr s => inr (PyPath (normpath s))
  | PyPath s => inr (PyPath s)
  | _ => inl (TypeError "expected str, bytes or os.PathLike object")
  end.

(** A generator of [read_sequences]: not started; suspended at the [yield],
    inside the [with] block of [handle], with the records the parser has
    still to give, its ending and the paths still to open; finished. *)
Inductive generator :=
| GenCreated (paths : pyobj) (format : string)
| GenSuspended (handle : nat) (pending : list SeqRecord) (tail : option exn)
               (rest : list pyobj) (format : string)
| GenFinished.

Inductive signal :=
| Yield (sequence : SeqRecord)
| StopIteration
| Raise (e : exn).

Definition step : Type := (signal * generator) * World.

(** The inner loop [for sequence in sequences: yield sequence] from the
    point it is at; [next_path] is the rest of the outer loop. *)
Definition for_sequences (next_path : World -> step) (handle : nat)
    (sequences : list SeqRecord) (tail : option exn) (rest : list pyobj)
    (format : string) (w : World) : step :=
  match sequences with
  | sequence :: pending =>
    ((Yield sequence, GenSuspended handle pending tail rest format), w)
  | [] =>
    match tail with
    | Some e => ((Raise e, GenFinished), handle_close handle w)
    | None => next_path (handle_close handle w)
    end
  end.

(** The outer loop [for path in paths]. *)
Fixpoint for_paths (format : string) (paths : list pyobj) (w : World) : step :=
  match paths with
  | [] => ((StopIteration, GenFinished), w)
  | path :: rest =>
    match xopen path "r" w with
    | (inl e, w1) => ((Raise e, GenFinished), w1)
    | (inr handle, w1) =>
      match SeqIO_parse handle format w1 with
      | (inl e, w2) => ((Raise e, GenFinished), handle_close handle w2)
      | (inr (sequences, tail), w2) =>
        for_sequences (for_paths format rest) handle sequences tail rest format w2
      end
    end
  end.

(** The [try: paths = [Path(paths)] except TypeError: pass] block. *)
Definition normalize_paths (paths : pyobj) : exn + pyobj :=
  match Path paths with
  | inr p => inr (PyList [p])
  | inl e => if is_TypeError e then inr paths else inl e
  end.

(** [next(g)] *)
Definition gen_next (g : generator) (w : World) : step :=
  match g with
  | GenCreated paths format =>
    match normalize_paths paths with
    | inl e => ((Raise e, GenFinished), w)
    | inr paths =>
      match py_iter paths with
      | inl e => ((Raise e, GenFinished), w)
      | inr items => for_paths format items w
      end
    end
  | GenSuspended handle pending tail rest format =>
    for_sequences (for_paths format rest) handle pending tail rest format w
  | GenFinished => ((StopIteration, GenFinished), w)
  end.

(** [g.close()], which is also what dropping the generator does:
    [GeneratorExit] is raised at the [yield] and leaves the [with] block. *)
Definition gen_close (g : generator) (w : World) : generator * World :=
  match g with
  | GenSuspended handle _ _ _ _ => (GenFinished, handle_close handle w)
  | _ => (GenFinished, w)
  end.

(** Calling the generator function runs none of its body. *)
Definition read_sequences (paths : pyobj) (format : string) : IO generator :=
  mret (GenCreated paths format).

(** ** Consumers *)

Inductive ending := Exhausted | Failed (e : exn) | Unfinished.

(** [list(g)], with a bound on the number of calls of [next]. *)
Fixpoint consume (fuel : nat) (g : generator) (w : World)
  : (list SeqRecord * ending) * (generator * World) :=
  match fuel with
  | O => (([], Unfinished), (g, w))
  | S fuel' =>
    match gen_next g w with
    | ((Yield sequence, g'), w') =>
      let '((sequences, fin), gw) := consume fuel' g' w' in
      ((sequence :: sequences, fin), gw)
    | ((StopIteration, g'), w') => (([], Exhausted), (g', w'))
    | ((Raise e, g'), w') => (([], Failed e), (g', w'))
    end
  end.

(** [n] calls of [next], whatever they give. *)
Fixpoint gen_steps (n : nat) (g : generator) (w : World) : generator * World :=
  match n with
  | O => (g, w)
  | S n' => let '((_, g'), w') := gen_next g w in gen_steps n' g' w'
  end.

(** The handle a generator holds. *)
Definition held (g : generator) : gset nat :=
  match g with
  | GenSuspended handle _ _ _ _ => {[handle]}
  | _ => ∅
  end.

End Operations.

(** ** What the theorems ask of the world and of the collaborators *)

Section Conditions.
Context `{PathLayer} `{Codec}.

(** [pathlib] rewrites a path string without changing the file it names. *)
Definition path_layer_sound : Prop := ∀ s, resolve (normpath s) = resolve s.

(** The serializer counts the items it was given. *)
Definition codec_counts : Prop :=
  ∀ items format text count,
    seqio_write (PyList items) format = (text, inr count) →
    count = Z.of_nat (length items).

(** The codec reads back as many records as it wrote for [records]. *)
Definition round_trips (format : string) (records : list SeqRecord) : Prop :=
  ∃ text parsed,
    seqio_write (PyList (PyRecord <$> records)) format =
      (text, inr (Z.of_nat (length records)))
    ∧ seqio_parse text format = inr (parsed, None)
    ∧ length parsed = length records.

(** The file a path-like object names. *)
Definition path_key (o : pyobj) : option string := resolve <$> fspath o.

(** [path] can be opened for writing in [w], and names the file [key]. *)
Definition writable (w : World) (path : pyobj) (key : string) : Prop :=
  path_key path = Some key ∧ write_faults w !! key = None.

(** [path] can be opened for reading in [w], names the file [key], and holds
    [content]. *)
Definition holds (w : World) (path : pyobj) (key content : string) : Prop :=
  path_key path = Some key ∧ read_faults w !! key = None ∧
  files w !! key = Some content.

(** [path] can be read in [w] and parses under [format] into [sequences]. *)
Definition readable (format : string) (w : World) (path : pyobj)
    (sequences : list SeqRecord) : Prop :=
  ∃ key content, holds w path key content ∧
                 seqio_parse content format = inr (sequences, None).

(** Reading [path] in [w] goes wrong with [e] after the parser gave
    [partial]: the opener raises [e], or the parser raises it at once or
    after some records. *)
Inductive unreadable (format : string) (w : World) (path : pyobj)
  : list SeqRecord → exn → Prop :=
| open_raises e w1 :
    xopen path "r" w = (inl e, w1) →
    unreadable format w path [] e
| parse_raises key content e :
    holds w path key content →
    seqio_parse content format = inl e →
    unreadable format w path [] e
| iterator_raises key content partial e :
    holds w path key content →
    seqio_parse content format = inr (partial, Some e) →
    unreadable format w path partial e.

(** The text and the outcome of the one codec call of [write_sequences]. *)
Definition written (sequences : pyobj) (format : string) : string :=
  fst (seqio_write sequences format).
Definition outcome (sequences : pyobj) (format : string) : exn + Z :=
  snd (seqio_write sequences format).

(** The world a call leaves behind when the guard passes and the
    destination opens under the descriptor [h]. *)
Definition after_write (sequences : pyobj) (key format : string) (h : nat)
    (w : World) : World :=
  handle_close h
    (log (EvWrite h (written sequences format))
       (set_files (<[key := written sequences format]> (files w))
          (register key ModeWrite h (<[key := ""]> (files w)) w))).

(** The files the events of a trace opened, in order. *)
Fixpoint opened (evs : list event) : list string :=
  match evs with
  | [] => []
  | EvOpen key _ _ :: evs' => key :: opened evs'
  | _ :: evs' => opened evs'
  end.

(** What is left of [list(g)] once [next(g)] gave [st]. *)
Definition consume_step (fuel : nat) (st : step)
  : (list SeqRecord * ending) * (generator * World) :=
  match st with
  | ((Yield sequence, g'), w') =>
    let '((sequences, fin), gw) := consume fuel g' w' in
    ((sequence :: sequences, fin), gw)
  | ((StopIteration, g'), w') => (([], Exhausted), (g', w'))
  | ((Raise e, g'), w') => (([], Failed e), (g', w'))
  end.

(** The paths a generator has still to open. *)
Definition todo (g : generator) : list pyobj :=
  match g with
  | GenCreated paths _ =>
    match normalize_paths paths with
    | inr paths' => match py_iter paths' with inr items => items | inl _ => [] end
    | inl _ => []
    end
  | GenSuspended _ _ _ rest _ => rest
  | GenFinished => []
  end.

(** What a run of the generator from [w] to [w'] did to the paths it had to
    open: the files opened in between are, in order, those of the paths
    [done] at the front of [before]; at a [yield] the paths [after] are
    left, at the end of the stream none is. *)
Definition progress (sig : signal) (before after : list pyobj) (w w' : World)
  : Prop :=
  ∃ evs done,
    trace w' = trace w ++ evs
    ∧ Some <$> opened evs = path_key <$> done
    ∧ match sig with
      | Yield _ => before = done ++ after
      | StopIteration => before = done
      | Raise _ => done `prefix_of` before
      end.

(** What a generator holds is all it adds to the handles that were open
    when it was made. *)
Definition holding (base : gset nat) (g : generator) (w : World) : Prop :=
  open_handles w = base ∪ held g ∧ held g ## base.

(** [sequences] put in front of what a consumer collected. *)
Definition prepend (sequences : list SeqRecord)
    (res : (list SeqRecord * ending) * (generator * World))
  : (list SeqRecord * ending) * (generator * World) :=
  let '((l, fin), gw) := res in ((sequences ++ l, fin), gw).

(** Two worlds with the same storage: they may differ in the open handles
    and in the trace. *)
Definition same_disk (w w' : World) : Prop :=
  files w' = files w ∧ read_faults w' = read_faults w
  ∧ write_faults w' = write_faults w.

End Conditions.

(** ** A path layer and a codec to run the functions on *)

Module Reference.

(** Leading "./" components are dropped, as [pathlib] does. *)
Fixpoint strip_dot (s : string) : string :=
  match s with
  | String c (String c' rest) =>
    if bool_decide (c = "."%char) && bool_decide (c' = "/"%char)
    then strip_dot rest else s
  | _ => s
  end.

#[export] Instance posix : PathLayer :=
  {| normpath := strip_dot; resolve := strip_dot |}.

Definition newline : string := String (ascii_of_nat 10) "".

Definition no_id_error : exn :=
  mkExn "AttributeError" "object has no attribute 'id'".
Definition unknown_format : exn := ValueError "Unknown format".

Definition fasta_text (r : SeqRecord) : string :=
  ">" +:+ rec_id r +:+ newline +:+ rec_seq r +:+ newline.

Fixpoint fasta_write_items (items : list pyobj) : string * (exn + Z) :=
  match items with
  | [] => ("", inr 0)
  | PyRecord r :: rest =>
    let '(text, outcome) := fasta_write_items rest in
    (fasta_text r +:+ text,
     match outcome with inr n => inr (1 + n) | inl e => inl e end)
  | _ :: _ => ("", inl no_id_error)
  end.

Definition fasta_write (sequences : pyobj) (format : string) : string * (exn + Z) :=
  if bool_decide (format = "fasta") then
    match py_iter sequences with
    | inl e => ("", inl e)
    | inr items => fasta_write_items items
    end
  else ("", inl unknown_format).

Fixpoint split_lines (cur s : string) : list string :=
  match s with
  | EmptyString => if bool_decide (cur = "") then [] else [cur]
  | String c s' =>
    if bool_decide (c = ascii_of_nat 10) then cur :: split_lines "" s'
    else split_lines (cur +:+ String c "") s'
  end.

Definition flush (cur : option SeqRecord) : list SeqRecord :=
  match cur with Some r => [r] | None => [] end.

Fixpoint fasta_records (cur : option SeqRecord) (ls : list string) : list SeqRecord :=
  match ls with
  | [] => flush cur
  | String ">"%char title :: ls' =>
    flush cur ++ fasta_records (Some (mkSeqRecord title "" "")) ls'
  | l :: ls' =>
    match cur with
    | Some r =>
      fasta_records (Some (mkSeqRecord (rec_id r) (rec_seq r +:+ l) "")) ls'
    | None => fasta_records None ls'
    end
  end.

Definition fasta_parse (content format : string)
  : exn + (list SeqRecord * option exn) :=
  if bool_decide (format = "fasta") then
    inr (fasta_records None (split_lines "" content), None)
  else inl unknown_format.

#[export] Instance fasta : Codec :=
  {| seqio_parse := fasta_parse; seqio_write := fasta_write |}.

Definition seq1 : SeqRecord := mkSeqRecord "SEQ_1" "ATGC" "".
Definition seq2 : SeqRecord := mkSeqRecord "SEQ_2" "GGCA" "".
Definition seq3 : SeqRecord := mkSeqRecord "SEQ_3" "TTAG" "".

Definition empty_world : World := mkWorld ∅ ∅ ∅ ∅ [].

(** Two fasta files, a file that is not fasta, and a directory nobody may
    write to. *)
Definition locked_error : exn := mkExn "PermissionError" "locked.fasta".
Definition readonly_error : exn := mkExn "PermissionError" "ro/out.fasta".

Definition disk : World :=
  mkWorld
    (<["a.fasta" := fasta_text seq1 +:+ fasta_text seq2]>
       (<["b.fasta" := fasta_text seq3]> (<["old.fasta" := fasta_text seq3]> ∅)))
    (<["locked.fasta" := locked_error]> ∅)
    (<["ro/out.fasta" := readonly_error]> ∅)
    ∅ [].

Definition three : list SeqRecord := [seq1; seq2; seq3].
Definition three_text : string :=
  fasta_text seq1 +:+ fasta_text seq2 +:+ fasta_text seq3.
Definition revisited : list pyobj :=
  [PyStr "a.fasta"; PyPath "b.fasta"; PyStr "./a.fasta"].

End Reference.

(** ** A path layer where [pathlib] and the storage disagree *)

Module Pathlib.

(** [pathlib] drops the slashes at the end of a path string:
    [str(Path("a.fasta/"))] is "a.fasta".  What is left of a string made of
    slashes only is the root. *)
Fixpoint drop_trailing_slashes (s : string) : string :=
  match s with
  | EmptyString => EmptyString
  | String c rest =>
    match drop_trailing_slashes rest with
    | EmptyString => if bool_decide (c = "/"%char) then EmptyString
                     else String c EmptyString
    | kept => String c kept
    end
  end.

Definition pathlib_str (s : string) : string :=
  match drop_trailing_slashes s with
  | EmptyString => if bool_decide (s = "") then "." else "/"
  | kept => kept
  end.

(** The storage is given the string as it is: for the operating system
    "a.fasta/" names a directory, and is not the file "a.fasta". *)
Definition trailing_slash : PathLayer :=
  {| normpath := pathlib_str; resolve := fun s => s |}.

Definition NotADirectoryError (key : string) : exn :=
  mkExn "NotADirectoryError" key.

(** One fasta file; opening it with a slash at the end of its name fails
    as [open("a.fasta/")] does. *)
Definition slash_disk : World :=
  mkWorld (<["a.fasta" := Reference.fasta_text Reference.seq1]> ∅)
          (<["a.fasta/" := NotADirectoryError "a.fasta/"]> ∅)
          ∅ ∅ [].

End Pathlib.

(** ** Generators at the same point of the loops *)

(** Two generators that differ at most in the descriptor they hold. *)
Definition same_point (g g' : generator) : Prop :=
  match g, g' with
  | GenCreated paths format, GenCreated paths' format' =>
    paths = paths' ∧ format = format'
  | GenSuspended _ pending tail rest format,
    GenSuspended _ pending' tail' rest' format' =>
    pending = pending' ∧ tail = tail' ∧ rest = rest' ∧ format = format'
  | GenFinished, GenFinished => True
  | _, _ => False
  end.

(** ** The helpers and two tests of [tests/test_io.py] *)

Module Tests.

(** The random source: the index [random.choices] draws at each pick, and
    the number of picks made so far. *)
Record rng := mkRng { draws : nat → nat; drawn : nat }.

Definition nucleotides : list ascii := ["A"; "T"; "G"; "C"]%char.

(** One pick of [random.choices(population, k=k)]; the populations of the
    tests are not empty. *)
Definition choice (population : list ascii) (r : rng) : ascii * rng :=
  (nth (draws r (drawn r) `mod` length population) population "A"%char,
   mkRng (draws r) (S (drawn r))).

(** [random.choices(population, k=k)] *)
Fixpoint choices (population : list ascii) (k : nat) (r : rng)
  : list ascii * rng :=
  match k with
  | O => ([], r)
  | S k' =>
    let '(c, r1) := choice population r in
    let '(cs, r2) := choices population k' r1 in
    (c :: cs, r2)
  end.

(** ["".join(random.choices(("A","T","G","C"), k=k))] *)
Definition random_seq (k : nat) (r : rng) : string * rng :=
  let '(letters, r') := choices nucleotides k r in
  (Strings.String.string_of_list_ascii letters, r').

(** [f"SEQ_{i}"] *)
Definition seq_id (i : nat) : string := "SEQ_" +:+ pretty i.

(** [SeqRecord(Seq(random_seq(k)), id=f"SEQ_{i}")] for each [i] of
    [indices], in order. *)
Fixpoint generate_for (indices : list nat) (k : nat) (r : rng)
  : list SeqRecord * rng :=
  match indices with
  | [] => ([], r)
  | i :: rest =>
    let '(letters, r1) := random_seq k r in
    let '(records, r2) := generate_for rest k r1 in
    (mkSeqRecord (seq_id i) letters "<unknown description>" :: records, r2)
  end.

(** [generate_sequences(n, k)], run to the end: [i] goes over
    [range(1, n + 1)]. *)
Definition generate_sequences (n k : nat) (r : rng) : list SeqRecord * rng :=
  generate_for (seq 1 n) k r.

(** The fixture [sequences]: [list(generate_sequences(3))], with [k=10]. *)
Definition sequences_fixture (r : rng) : list SeqRecord :=
  (generate_sequences 3 10 r).1.

Inductive verdict := Passed | AssertionFailed | Errored (e : exn).

(** [Path(tmpdir) / Path("new_sequences.fasta")] *)
Definition new_sequences (tmpdir : string) : pyobj :=
  PyPath (tmpdir +:+ "/new_sequences.fasta").

Definition IndexError : exn := mkExn "IndexError" "list index out of range".

Section Bodies.
Context `{PathLayer} `{Codec}.

(** [test_write_single_sequence_object_to_file] *)
Definition test_write_single_sequence_object_to_file (tmpdir : string)
    (sequences : list SeqRecord) (w : World) : verdict * World :=
  let output_filename := new_sequences tmpdir in
  match sequences with
  | [] => (Errored IndexError, w)
  | first :: _ =>
    match write_sequences (PyRecord first) output_filename "fasta" w with
    | (inl e, w') => (Errored e, w')
    | (inr sequences_written, w') =>
      (if bool_decide (sequences_written = 1) then Passed else AssertionFailed, w')
    end
  end.

(** The loop of [test_write_single_sequence_objects_to_file_in_loop]: the
    sum of the counts, or the first exception. *)
Fixpoint write_in_loop (sequences : list SeqRecord) (output_filename : pyobj)
    (sequences_written : Z) (w : World) : (exn + Z) * World :=
  match sequences with
  | [] => (inr sequences_written, w)
  | sequence :: rest =>
    match write_sequences (PyRecord sequence) output_filename "fasta" w with
    | (inl e, w') => (inl e, w')
    | (inr n, w') => write_in_loop rest output_filename (sequences_written + n) w'
    end
  end.

End Bodies.

End Tests.

(** * Properties *)

Section Properties.
Context `{PathLayer} `{Codec}.

(** ** The opener *)

Lemma parse_mode_r : parse_mode "r" = Some ModeRead.
Proof. reflexivity. Qed.

Lemma parse_mode_wt : parse_mode "wt" = Some ModeWrite.
Proof. reflexivity. Qed.

Lemma path_key_fspath path key :
  path_key path = Some key → ∃ s, fspath path = Some s ∧ key = resolve s.
Proof.
  unfold path_key. destruct (fspath path) as [s|]; simpl; [|done].
  intros [= <-]. eauto.
Qed.

Lemma xopen_write_ok w path key :
  writable w path key →
  xopen path "wt" w =
    (inr (fresh_handle w),
     register key ModeWrite (fresh_handle w) (<[key := ""]> (files w)) w).
Proof.
  intros [Hk Hf]. apply path_key_fspath in Hk as (s & Hs & ->).
  unfold xopen. rewrite parse_mode_wt, Hs. unfold open_key. by rewrite Hf.
Qed.

Lemma xopen_read_ok w path key content :
  holds w path key content →
  xopen path "r" w =
    (inr (fresh_handle w), register key ModeRead (fresh_handle w) (files w) w).
Proof.
  intros (Hk & Hf & Hc). apply path_key_fspath in Hk as (s & Hs & ->).
  unfold xopen. rewrite parse_mode_r, Hs. unfold open_key. by rewrite Hf, Hc.
Qed.

Lemma fresh_handle_closed w : fresh_handle w ∉ open_handles w.
Proof. unfold fresh_handle. apply is_fresh. Qed.

Lemma open_handles_register key m h f w :
  open_handles (register key m h f w) = {[h]} ∪ open_handles w.
Proof. unfold open_handles, register; simpl. apply dom_insert_L. Qed.

Lemma open_handles_close h w :
  open_handles (handle_close h w) = open_handles w ∖ {[h]}.
Proof. unfold open_handles, handle_close; simpl. apply dom_delete_L. Qed.

Lemma open_then_close key m f w (h := fresh_handle w) w' :
  open_handles w' = open_handles (register key m h f w) →
  open_handles (handle_close h w') = open_handles w.
Proof.
  intros Hw. rewrite open_handles_close, Hw, open_handles_register.
  pose proof (fresh_handle_closed w). set_solver.
Qed.

(** An open either fails and leaves the handles alone, or registers the
    lowest free descriptor. *)
Lemma open_key_handles key m w r w1 :
  open_key key m w = (r, w1) →
  match r with
  | inl _ => open_handles w1 = open_handles w
  | inr h => h = fresh_handle w ∧ open_handles w1 = {[h]} ∪ open_handles w
             ∧ handles w1 !! h = Some (key, m)
             ∧ files w1 !! key =
                 match m with
                 | ModeRead => files w !! key
                 | ModeWrite => Some ""
                 | ModeAppend => Some (default "" (files w !! key))
                 end
  end.
Proof.
  unfold open_key.
  destruct (match match m with ModeRead => _ | _ => _ end with
            | Some e => Some e | None => _ end) as [e|];
    intros [= <- <-]; [done|].
  split_and!; [done|apply open_handles_register|apply lookup_insert_eq|].
  destruct m; simpl; [done|apply lookup_insert_eq..].
Qed.

Lemma xopen_handles path mode w r w1 :
  xopen path mode w = (r, w1) →
  match r with
  | inl _ => open_handles w1 = open_handles w
  | inr h => h = fresh_handle w ∧ open_handles w1 = {[h]} ∪ open_handles w
  end.
Proof.
  unfold xopen. destruct (parse_mode mode) as [m|]; [|by intros [= <- <-]].
  destruct (fspath path) as [s|]; [|by intros [= <- <-]].
  intros Ho. apply open_key_handles in Ho. destruct r; naive_solver.
Qed.

(** ** The codec calls *)

Lemma handle_write_handles h text w r w1 :
  handle_write h text w = (r, w1) → handles w1 = handles w.
Proof.
  unfold handle_write.
  destruct (handles w !! h) as [[key []]|]; by intros [= <- <-].
Qed.

Lemma SeqIO_write_handles sequences h format w r w1 :
  SeqIO_write sequences h format w = (r, w1) → handles w1 = handles w.
Proof.
  unfold SeqIO_write. destruct (seqio_write sequences format) as [text outcome].
  unfold mbind, IO_bind, bind.
  destruct (handle_write h text w) as [[e|[]] w2] eqn:Hw;
    apply handle_write_handles in Hw.
  - by intros [= <- <-].
  - destruct outcome; by intros [= <- <-].
Qed.

Lemma SeqIO_write_registered sequences key h f format w :
  SeqIO_write sequences h format (register key ModeWrite h (<[key := ""]> f) w) =
    (snd (seqio_write sequences format),
     log (EvWrite h (fst (seqio_write sequences format)))
         (set_files (<[key := fst (seqio_write sequences format)]> f)
                    (register key ModeWrite h (<[key := ""]> f) w))).
Proof.
  unfold SeqIO_write. destruct (seqio_write sequences format) as [text outcome].
  unfold mbind, IO_bind, bind, handle_write; simpl.
  rewrite !lookup_insert_eq; simpl. rewrite insert_insert_eq.
  by destruct outcome.
Qed.

Lemma SeqIO_parse_world h format w r w1 :
  SeqIO_parse h format w = (r, w1) → w1 = w.
Proof.
  unfold SeqIO_parse, mbind, IO_bind, bind, handle_read.
  destruct (handles w !! h) as [[key []]|]; try by intros [= <- <-].
  destruct (seqio_parse _ format); by intros [= <- <-].
Qed.

Lemma SeqIO_parse_registered key h format w :
  SeqIO_parse h format (register key ModeRead h (files w) w) =
    (match seqio_parse (default "" (files w !! key)) format with
     | inl e => inl e
     | inr sequences => inr sequences
     end, register key ModeRead h (files w) w).
Proof.
  unfold SeqIO_parse, mbind, IO_bind, bind, handle_read; simpl.
  rewrite lookup_insert_eq. by destruct (seqio_parse _ format).
Qed.

(** ** write_sequences *)

Lemma write_sequences_run sequences path format w key :
  isinstance_SeqRecord sequences = false →
  writable w path key →
  write_sequences sequences path format w =
    (outcome sequences format,
     after_write sequences key format (fresh_handle w) w).
Proof.
  intros Hg Hw. unfold write_sequences. rewrite Hg.
  unfold mbind, IO_bind, bind, with_handle.
  rewrite (xopen_write_ok _ _ _ Hw), SeqIO_write_registered.
  unfold outcome, after_write, written.
  by destruct (snd (seqio_write sequences format)).
Qed.

Lemma after_write_trace sequences key format h w :
  trace (after_write sequences key format h w) =
    trace w ++ [EvOpen key ModeWrite h; EvWrite h (written sequences format);
                EvClose h].
Proof. unfold after_write; simpl. by rewrite <- !app_assoc. Qed.

Lemma after_write_files sequences key format h w :
  files (after_write sequences key format h w) =
    <[key := written sequences format]> (files w).
Proof. done. Qed.

Lemma after_write_handles sequences key format w :
  open_handles (after_write sequences key format (fresh_handle w) w) =
    open_handles w.
Proof. unfold after_write. by eapply open_then_close. Qed.

Lemma trace_grows (l evs : list event) : l ++ evs = l → evs = [].
Proof.
  intros Hl. apply (f_equal length) in Hl. rewrite length_app in Hl.
  destruct evs; [done|simpl in Hl; lia].
Qed.

(** A call that gets past the guard and raises has either left a mark in the
    trace or raised what the opener raises before it touches the storage. *)
Lemma write_sequences_past_guard sequences path format w e w' :
  isinstance_SeqRecord sequences = false →
  write_sequences sequences path format w = (inl e, w') →
  (∃ ev evs, trace w' = trace w ++ ev :: evs) ∨
  e = TypeError "expected str, bytes or os.PathLike object".
Proof.
  intros Hg. unfold write_sequences. rewrite Hg.
  unfold mbind, IO_bind, bind, with_handle, xopen.
  rewrite parse_mode_wt. destruct (fspath path) as [s|].
  - unfold open_key.
    destruct (match write_faults w !! resolve s with
              | Some e0 => Some e0 | None => None end) as [e0|].
    + intros [= <- <-]. left. simpl. eauto.
    + rewrite SeqIO_write_registered.
      destruct (snd (seqio_write sequences format)); intros [= <- <-].
      left. simpl. rewrite <- !app_assoc. simpl. eauto.
  - intros [= <- <-]. by right.
Qed.

(** C1: handed a single record, [write_sequences] raises its [TypeError] at
    once: the world it returns is the world it was given, so no stream was
    opened, no file was created and nothing was written. *)
Theorem write_sequences_single_record r path format w :
  write_sequences (PyRecord r) path format w = (inl single_record_error, w)
  ∧ is_TypeError single_record_error = true.
Proof. split; reflexivity. Qed.

(** C5: for a collection of records that the codec serializes without
    raising, [write_sequences] returns the count of the codec, which is the
    number of records given, and the destination holds the text. *)
Theorem write_sequences_returns_count
    (records : list SeqRecord) path format w key text count :
  codec_counts →
  writable w path key →
  seqio_write (PyList (PyRecord <$> records)) format = (text, inr count) →
  ∃ w', write_sequences (PyList (PyRecord <$> records)) path format w =
          (inr (Z.of_nat (length records)), w')
        ∧ files w' !! key = Some text.
Proof.
  intros Hcount Hw Hs. eexists. split.
  - rewrite (write_sequences_run _ _ _ _ key) by done.
    unfold outcome. rewrite Hs; simpl.
    apply Hcount in Hs. rewrite length_fmap in Hs. by rewrite Hs.
  - rewrite after_write_files. unfold written. rewrite Hs.
    apply lookup_insert_eq.
Qed.

(** C6: a call that gets to the destination opens it once in write mode,
    writes once and closes: the file then holds the text of this call
    alone, whatever it held before, the other files are as they were, and
    no handle stays open. *)
Theorem write_sequences_truncates sequences path format w key :
  isinstance_SeqRecord sequences = false →
  writable w path key →
  ∃ h w',
    write_sequences sequences path format w = (outcome sequences format, w')
    ∧ trace w' = trace w ++ [EvOpen key ModeWrite h;
                             EvWrite h (written sequences format);
                             EvClose h]
    ∧ files w' = <[key := written sequences format]> (delete key (files w))
    ∧ open_handles w' = open_handles w.
Proof.
  intros Hg Hw. exists (fresh_handle w). eexists. split_and!.
  - by apply write_sequences_run.
  - apply after_write_trace.
  - rewrite after_write_files. by rewrite insert_delete_eq.
  - apply after_write_handles.
Qed.

(** C10: the guard raises for single records and for nothing else; any
    other object goes to the codec once the destination is open, and what
    the call returns or raises is what the codec returned or raised. *)
Theorem guard_rejects_single_records_only sequences path format w :
  (write_sequences sequences path format w = (inl single_record_error, w)
   ↔ isinstance_SeqRecord sequences = true)
  ∧ (isinstance_SeqRecord sequences = false →
     ∀ key, writable w path key →
     ∃ h w',
       write_sequences sequences path format w = (outcome sequences format, w')
       ∧ trace w' = trace w ++ [EvOpen key ModeWrite h;
                                EvWrite h (written sequences format);
                                EvClose h]).
Proof.
  split.
  - split.
    + intros Hr. destruct (isinstance_SeqRecord sequences) eqn:Hg; [done|].
      destruct (write_sequences_past_guard _ _ _ _ _ _ Hg Hr)
        as [(ev & evs & Ht)|He]; [|done].
      symmetry in Ht. by apply trace_grows in Ht.
    + intros Hg. unfold write_sequences. by rewrite Hg.
  - intros Hg key Hw. exists (fresh_handle w). eexists. split.
    + by apply write_sequences_run.
    + apply after_write_trace.
Qed.

(** ** read_sequences: the stream *)

Lemma consume_S fuel g w :
  consume (S fuel) g w = consume_step fuel (gen_next g w).
Proof. simpl. unfold consume_step. by destruct (gen_next g w) as [[[] ?] ?]. Qed.

Lemma gen_next_list ps format w :
  gen_next (GenCreated (PyList ps) format) w = for_paths format ps w.
Proof. reflexivity. Qed.

Lemma prepend_nil res : prepend [] res = res.
Proof. by destruct res as [[] ?]. Qed.

Lemma prepend_app l1 l2 res : prepend l1 (prepend l2 res) = prepend (l1 ++ l2) res.
Proof. destruct res as [[] ?]; simpl. by rewrite app_assoc. Qed.

Lemma same_disk_refl w : same_disk w w.
Proof. done. Qed.

Lemma same_disk_trans w1 w2 w3 : same_disk w1 w2 → same_disk w2 w3 → same_disk w1 w3.
Proof. unfold same_disk. intros (-> & -> & ->) (-> & -> & ->). done. Qed.

Lemma same_disk_read key h w :
  same_disk w (handle_close h (register key ModeRead (fresh_handle w) (files w) w)).
Proof. done. Qed.

Lemma holds_same_disk w w' path key content :
  same_disk w w' → holds w path key content → holds w' path key content.
Proof. intros (Hf & Hr & _) (? & ? & ?). unfold holds. by rewrite Hf, Hr. Qed.

Lemma xopen_raises_same_disk w w' path mode e w1 :
  same_disk w w' → xopen path mode w = (inl e, w1) →
  ∃ w1', xopen path mode w' = (inl e, w1').
Proof.
  intros (Hf & Hr & Hw). unfold xopen.
  destruct (parse_mode mode) as [m|]; [|intros [= <- <-]; by eexists].
  destruct (fspath path) as [s|]; [|intros [= <- <-]; by eexists].
  unfold open_key. rewrite Hf, Hr, Hw.
  destruct (match match m with ModeRead => _ | _ => _ end with
            | Some e0 => Some e0 | None => _ end) as [e0|];
    intros [= <- <-]; by eexists.
Qed.

(** The body of the outer loop on a path that opens. *)
Lemma for_paths_holds format path rest w key content :
  holds w path key content →
  for_paths format (path :: rest) w =
    let h := fresh_handle w in
    let w1 := register key ModeRead h (files w) w in
    match seqio_parse content format with
    | inl e => ((Raise e, GenFinished), handle_close h w1)
    | inr (sequences, tail) =>
      for_sequences (for_paths format rest) h sequences tail rest format w1
    end.
Proof.
  intros Hh. simpl. rewrite (xopen_read_ok _ _ _ _ Hh), SeqIO_parse_registered.
  destruct Hh as (_ & _ & ->); simpl.
  by destruct (seqio_parse content format) as [e|[sequences tail]].
Qed.

(** The consumer takes the pending records one by one. *)
Lemma consume_step_pending pending fuel h tail rest format w :
  consume_step (length pending + fuel)
    (for_sequences (for_paths format rest) h pending tail rest format w) =
  prepend pending
    (consume_step fuel
       (for_sequences (for_paths format rest) h [] tail rest format w)).
Proof.
  induction pending as [|sequence pending IH].
  - by rewrite prepend_nil.
  - change (length (sequence :: pending) + fuel)%nat
      with (S (length pending + fuel)).
    cbn [for_sequences consume_step]. rewrite consume_S.
    cbn [gen_next]. rewrite IH.
    by destruct (consume_step fuel _) as [[] ?].
Qed.

(** Readable paths in front of a list are consumed one after the other;
    the consumer then goes on with the rest of the list, on the same
    storage and with the handles it started with. *)
Lemma consume_step_readable format w paths parsed :
  Forall2 (readable format w) paths parsed →
  ∀ more fuel w0, same_disk w w0 →
  ∃ w1, same_disk w w1 ∧ open_handles w1 = open_handles w0 ∧
    consume_step (length (concat parsed) + fuel)
                 (for_paths format (paths ++ more) w0) =
    prepend (concat parsed) (consume_step fuel (for_paths format more w1)).
Proof.
  induction 1 as [|path sequences paths parsed (key & content & Hh & Hp) _ IH];
    intros more fuel w0 Hd.
  - exists w0. by rewrite prepend_nil.
  - pose proof (holds_same_disk _ _ _ _ _ Hd Hh) as Hh0.
    set (h := fresh_handle w0).
    set (w1 := register key ModeRead h (files w0) w0).
    destruct (IH more fuel (handle_close h w1)) as (w2 & Hd2 & Ho2 & Hc).
    { eapply same_disk_trans; [exact Hd|]. apply same_disk_read. }
    exists w2. split_and!; [done| |].
    + rewrite Ho2. by eapply open_then_close.
    + cbn [concat app]. rewrite (for_paths_holds _ _ _ _ _ _ Hh0), Hp.
      cbv zeta. fold h w1. rewrite length_app, <- Nat.add_assoc.
      rewrite consume_step_pending. cbn [for_sequences].
      rewrite Hc. apply prepend_app.
Qed.

Lemma length_concat_sum (parsed : list (list SeqRecord)) :
  length (concat parsed) = sum_list (length <$> parsed).
Proof.
  induction parsed as [|l parsed IH]; [done|].
  cbn [concat fmap list_fmap sum_list sum_list_with].
  by rewrite length_app, IH.
Qed.

(** C3: when every path of the list opens and parses, the stream is the
    concatenation of the records of the paths, path after path and in file
    order within a path, then it is exhausted; its length is the sum of the
    counts of the paths. *)
Theorem read_sequences_concatenates format w paths parsed fuel :
  Forall2 (readable format w) paths parsed →
  (length (concat parsed) < fuel)%nat →
  ∃ g w', read_sequences (PyList paths) format w = (inr g, w)
    ∧ consume fuel g w = ((concat parsed, Exhausted), (GenFinished, w'))
    ∧ length (concat parsed) = sum_list (length <$> parsed)
    ∧ same_disk w w' ∧ open_handles w' = open_handles w.
Proof.
  intros Hr Hfuel.
  destruct fuel as [|fuel]; [lia|].
  destruct (consume_step_readable _ _ _ _ Hr [] (fuel - length (concat parsed)) w)
    as (w1 & Hd & Ho & Hc); [done|].
  exists (GenCreated (PyList paths) format), w1.
  split_and!; [done| |apply length_concat_sum|done|done].
  rewrite consume_S, gen_next_list.
  rewrite app_nil_r in Hc.
  replace fuel with (length (concat parsed) + (fuel - length (concat parsed)))%nat
    at 1 by lia.
  rewrite Hc. simpl. by rewrite app_nil_r.
Qed.

(** ** Errors of the storage and of the codec *)

(** The consumer on a path that goes wrong: it gets the records the parser
    gave, then the exception, and the generator is finished. *)
Lemma consume_step_unreadable format w path partial e :
  unreadable format w path partial e →
  ∀ rest fuel w0, same_disk w w0 →
  ∃ w1, consume_step (length partial + fuel) (for_paths format (path :: rest) w0) =
          ((partial, Failed e), (GenFinished, w1)).
Proof.
  intros [e' w1 Hx|key content e' Hh Hp|key content partial' e' Hh Hp]
    rest fuel w0 Hd.
  - destruct (xopen_raises_same_disk _ _ _ _ _ _ Hd Hx) as (w1' & Hx').
    exists w1'. simpl. by rewrite Hx'.
  - pose proof (holds_same_disk _ _ _ _ _ Hd Hh) as Hh0.
    eexists. by rewrite (for_paths_holds _ _ _ _ _ _ Hh0), Hp.
  - pose proof (holds_same_disk _ _ _ _ _ Hd Hh) as Hh0.
    eexists. rewrite (for_paths_holds _ _ _ _ _ _ Hh0), Hp. cbv zeta.
    rewrite consume_step_pending. simpl. by rewrite app_nil_r.
Qed.

(** C8: a failure of the opener or of the codec reaches the caller as it
    was raised.  Reading: after the records of the paths that read well and
    the records the parser gave for the failing path, the stream raises the
    very exception, and the generator is finished, so that nothing is tried
    again; a failed open leaves the world as the opener left it.  Writing:
    a failed open is raised with the world as the opener left it, and an
    exception of the codec is raised after the one open, write and close. *)
Theorem errors_propagate_unchanged format w e :
  (∀ paths parsed path partial rest fuel,
     Forall2 (readable format w) paths parsed →
     unreadable format w path partial e →
     (length (concat parsed ++ partial) < fuel)%nat →
     ∃ g w', read_sequences (PyList (paths ++ path :: rest)) format w = (inr g, w)
       ∧ consume fuel g w =
           ((concat parsed ++ partial, Failed e), (GenFinished, w'))
       ∧ gen_next GenFinished w' = ((StopIteration, GenFinished), w'))
  ∧ (∀ path rest w1,
       xopen path "r" w = (inl e, w1) →
       gen_next (GenCreated (PyList (path :: rest)) format) w =
         ((Raise e, GenFinished), w1))
  ∧ (∀ sequences path w1,
       isinstance_SeqRecord sequences = false →
       xopen path "wt" w = (inl e, w1) →
       write_sequences sequences path format w = (inl e, w1))
  ∧ (∀ sequences path key,
       isinstance_SeqRecord sequences = false →
       writable w path key →
       outcome sequences format = inl e →
       ∃ h w', write_sequences sequences path format w = (inl e, w')
         ∧ trace w' = trace w ++ [EvOpen key ModeWrite h;
                                  EvWrite h (written sequences format);
                                  EvClose h]).
Proof.
  split_and!.
  - intros paths parsed path partial rest fuel Hr Hu Hfuel.
    rewrite length_app in Hfuel.
    destruct fuel as [|fuel]; [lia|].
    set (spare := (fuel - length (concat parsed) - length partial)%nat).
    destruct (consume_step_readable _ _ _ _ Hr (path :: rest)
                (length partial + spare) w) as (w1 & Hd & _ & Hc); [done|].
    destruct (consume_step_unreadable _ _ _ _ _ Hu rest spare w1 Hd)
      as (w2 & Hc2).
    exists (GenCreated (PyList (paths ++ path :: rest)) format), w2.
    split_and!; [done| |done].
    rewrite consume_S, gen_next_list.
    replace fuel with (length (concat parsed) + (length partial + spare))%nat
      by lia.
    by rewrite Hc, Hc2.
  - intros path rest w1 Hx. rewrite gen_next_list. simpl. by rewrite Hx.
  - intros sequences path w1 Hg Hx. unfold write_sequences. rewrite Hg.
    unfold mbind, IO_bind, bind, with_handle. by rewrite Hx.
  - intros sequences path key Hg Hw Ho.
    exists (fresh_handle w). eexists. split.
    + rewrite (write_sequences_run _ _ _ _ key) by done. by rewrite Ho.
    + apply after_write_trace.
Qed.

Lemma gen_next_todo paths format path rest w :
  todo (GenCreated paths format) = path :: rest →
  gen_next (GenCreated paths format) w = for_paths format (path :: rest) w.
Proof.
  cbn [todo gen_next].
  destruct (normalize_paths paths) as [e|paths']; [done|].
  destruct (py_iter paths') as [e|items]; [done|]. by intros ->.
Qed.

(** C9: calling [read_sequences] gives a generator and leaves the world as
    it was, whatever the arguments: nothing is opened and nothing is raised.
    When the first path to open does not open, or opens and the codec
    refuses the format, the exception is raised by the first [next]. *)
Theorem read_sequences_is_lazy paths format w :
  read_sequences paths format w = (inr (GenCreated paths format), w)
  ∧ (∀ path rest e w1,
       todo (GenCreated paths format) = path :: rest →
       xopen path "r" w = (inl e, w1) →
       gen_next (GenCreated paths format) w = ((Raise e, GenFinished), w1))
  ∧ (∀ path rest key content e,
       todo (GenCreated paths format) = path :: rest →
       holds w path key content →
       seqio_parse content format = inl e →
       gen_next (GenCreated paths format) w =
         ((Raise e, GenFinished),
          handle_close (fresh_handle w)
            (register key ModeRead (fresh_handle w) (files w) w))).
Proof.
  split_and!.
  - reflexivity.
  - intros path rest e w1 Ht Hx.
    rewrite (gen_next_todo _ _ _ _ _ Ht). simpl. by rewrite Hx.
  - intros path rest key content e Ht Hh He.
    rewrite (gen_next_todo _ _ _ _ _ Ht).
    by rewrite (for_paths_holds _ _ _ _ _ _ Hh), He.
Qed.

(** ** read_sequences: the order in which paths are opened *)

Lemma opened_app evs1 evs2 : opened (evs1 ++ evs2) = opened evs1 ++ opened evs2.
Proof.
  induction evs1 as [|[] evs1 IH]; simpl; [done|by rewrite IH|done..].
Qed.

Lemma xopen_read_inv path w h w1 :
  xopen path "r" w = (inr h, w1) →
  ∃ key, path_key path = Some key
         ∧ w1 = register key ModeRead (fresh_handle w) (files w) w
         ∧ h = fresh_handle w.
Proof.
  unfold xopen, path_key. rewrite parse_mode_r.
  destruct (fspath path) as [s|]; [|done]. unfold open_key.
  destruct (match read_faults w !! resolve s with
            | Some e => Some e | None => _ end); [done|].
  intros [= <- <-]. by exists (resolve s).
Qed.

Lemma xopen_raises_trace path mode w e w1 :
  xopen path mode w = (inl e, w1) →
  ∃ evs, trace w1 = trace w ++ evs ∧ opened evs = [].
Proof.
  unfold xopen. destruct (parse_mode mode) as [m|].
  - destruct (fspath path) as [s|].
    + unfold open_key.
      destruct (match match m with ModeRead => _ | _ => _ end with
                | Some e0 => Some e0 | None => _ end) as [e0|]; [|done].
      intros [= <- <-]. by exists [EvOpenFailed m e0].
    + intros [= <- <-]. exists []. by rewrite app_nil_r.
  - intros [= <- <-]. exists []. by rewrite app_nil_r.
Qed.

Lemma progress_opened sig path before after key h w w1 w' :
  path_key path = Some key →
  trace w1 = trace w ++ [EvOpen key ModeRead h; EvClose h] →
  progress sig before after w1 w' →
  progress sig (path :: before) after w w'.
Proof.
  intros Hk Ht (evs & done & Ht' & Ho & Hs).
  exists ([EvOpen key ModeRead h; EvClose h] ++ evs), (path :: done).
  split_and!.
  - by rewrite Ht', Ht, <- app_assoc.
  - change (opened ([EvOpen key ModeRead h; EvClose h] ++ evs))
      with (key :: opened evs).
    by rewrite !fmap_cons, Ho, Hk.
  - destruct sig; [by rewrite Hs..|by apply prefix_cons].
Qed.

Lemma for_paths_progress format paths w sig g' w' :
  for_paths format paths w = ((sig, g'), w') →
  progress sig paths (todo g') w w'.
Proof.
  revert w sig g' w'.
  induction paths as [|path rest IH]; intros w sig g' w'; simpl.
  - intros [= <- <- <-]. exists [], []. by rewrite app_nil_r.
  - destruct (xopen path "r" w) as [[e|h] w1] eqn:Hx.
    + intros [= <- <- <-].
      destruct (xopen_raises_trace _ _ _ _ _ Hx) as (evs & Ht & Ho).
      exists evs, []. rewrite Ho. split_and!; [done..|apply prefix_nil].
    + apply xopen_read_inv in Hx as (key & Hk & -> & ->).
      set (h := fresh_handle w).
      set (w1 := register key ModeRead h (files w) w).
      assert (trace (handle_close h w1) =
              trace w ++ [EvOpen key ModeRead h; EvClose h]) as Hclosed
        by (simpl; by rewrite <- app_assoc).
      assert (∀ e, progress (Raise e) rest [] (handle_close h w1)
                            (handle_close h w1)) as Hstop.
      { intros e. exists [], []. rewrite app_nil_r.
        split_and!; [done..|apply prefix_nil]. }
      destruct (SeqIO_parse h format w1) as [[e|[sequences tail]] w2] eqn:Hp;
        apply SeqIO_parse_world in Hp as ->.
      * intros [= <- <- <-].
        by apply (progress_opened _ _ _ _ key h _ (handle_close h w1)).
      * destruct sequences as [|sequence pending]; simpl.
        -- destruct tail as [e|].
           ++ intros [= <- <- <-].
              by apply (progress_opened _ _ _ _ key h _ (handle_close h w1)).
           ++ intros Hf. apply IH in Hf.
              by apply (progress_opened _ _ _ _ key h _ (handle_close h w1)).
        -- intros [= <- <- <-].
           exists [EvOpen key ModeRead h], [path].
           split_and!; [done| |done].
           change (opened [EvOpen key ModeRead h]) with [key].
           by rewrite !fmap_cons, Hk.
Qed.

Lemma gen_next_progress g w sig g' w' :
  gen_next g w = ((sig, g'), w') →
  progress sig (todo g) (todo g') w w'.
Proof.
  destruct g as [paths format|h pending tail rest format|]; simpl.
  - destruct (normalize_paths paths) as [e|paths'].
    + intros [= <- <- <-]. exists [], []. by rewrite app_nil_r.
    + destruct (py_iter paths') as [e|items].
      * intros [= <- <- <-]. exists [], []. by rewrite app_nil_r.
      * apply for_paths_progress.
  - destruct pending as [|sequence pending]; simpl.
    + destruct tail as [e|].
      * intros [= <- <- <-]. exists [EvClose h], [].
        split_and!; [done..|apply prefix_nil].
      * intros Hf. apply for_paths_progress in Hf
          as (evs & done & Ht & Ho & Hs).
        exists (EvClose h :: evs), done. split_and!; [|done..].
        rewrite Ht. simpl. by rewrite <- app_assoc.
    + intros [= <- <- <-]. exists [], []. by rewrite app_nil_r.
  - intros [= <- <- <-]. exists [], []. by rewrite app_nil_r.
Qed.

(** However far a consumer gets, the files opened so far are those of a
    front part of the paths, in their order; all of them when the stream is
    exhausted. *)
Lemma consume_progress fuel g w sequences fin g' w' :
  consume fuel g w = ((sequences, fin), (g', w')) →
  ∃ evs done,
    trace w' = trace w ++ evs
    ∧ Some <$> opened evs = path_key <$> done
    ∧ done `prefix_of` todo g
    ∧ (fin = Exhausted → done = todo g).
Proof.
  revert g w sequences. induction fuel as [|fuel IH]; intros g w sequences.
  - intros [= <- <- <- <-]. exists [], []. rewrite app_nil_r.
    split_and!; [done..|apply prefix_nil|done].
  - rewrite consume_S.
    destruct (gen_next g w) as [[sig g1] w1] eqn:Hn.
    apply gen_next_progress in Hn as (evs & done & Ht & Ho & Hs).
    destruct sig as [sequence| |e]; simpl.
    + destruct (consume fuel g1 w1) as [[l fin1] [g2 w2]] eqn:Hc.
      intros [= <- <- <- <-].
      apply IH in Hc as (evs' & done' & Ht' & Ho' & Hp' & Hx').
      exists (evs ++ evs'), (done ++ done'). split_and!.
      * by rewrite Ht', Ht, <- app_assoc.
      * by rewrite opened_app, !fmap_app, Ho, Ho'.
      * rewrite Hs. by apply prefix_app.
      * intros Hfin. rewrite Hs. f_equal. by apply Hx'.
    + intros [= <- <- <- <-]. exists evs, done.
      split_and!; [done..|by rewrite Hs|done].
    + intros [= <- <- <- <-]. exists evs, done. by split_and!.
Qed.

Lemma xopen_normpath s mode w :
  path_layer_sound →
  xopen (PyPath (normpath s)) mode w = xopen (PyStr s) mode w.
Proof. intros Hs. unfold xopen; simpl. by rewrite Hs. Qed.

(** A single path-like object goes through the loop as a list of one. *)
Lemma gen_next_single path format w :
  path_layer_sound →
  is_Some (fspath path) →
  gen_next (GenCreated path format) w = for_paths format [path] w.
Proof.
  intros Hs [s Hp]. destruct path; try done.
  cbn [gen_next normalize_paths Path py_iter for_paths].
  by rewrite xopen_normpath.
Qed.

Lemma xopen_path_key path path' mode w :
  path_key path = path_key path' →
  xopen path mode w = xopen path' mode w.
Proof.
  unfold path_key, xopen. destruct (parse_mode mode) as [m|]; [|done].
  destruct (fspath path) as [s|], (fspath path') as [s'|]; simpl; try done.
  by intros [= ->].
Qed.

Lemma gen_next_Path path p format w :
  Path path = inr p →
  gen_next (GenCreated path format) w = for_paths format [p] w.
Proof. intros Hp. cbn [gen_next]. unfold normalize_paths. by rewrite Hp. Qed.

Lemma for_paths_path_key path path' format w :
  path_key path = path_key path' →
  for_paths format [path] w = for_paths format [path'] w.
Proof. intros Hk. cbn [for_paths]. by rewrite (xopen_path_key _ _ _ _ Hk). Qed.

(** C2 (amended): a single path-like object [p] is read as the list holding
    [Path(p)]: the first [next] of either generator runs the loop over that
    one path.  It is read as the list holding [p] itself when [Path(p)]
    names the file [p] names, which is always so when [p] is a [Path].  The
    paths of a list are opened as they are given, in the order of the list
    and each as often as it occurs: however far a consumer gets, the files
    opened are those of a front part of the list, and of the whole list
    once the stream is exhausted. *)
Theorem read_sequences_single_path_as_Path :
  (∀ path p format w,
     Path path = inr p →
     ∃ g g', read_sequences path format w = (inr g, w)
       ∧ read_sequences (PyList [p]) format w = (inr g', w)
       ∧ gen_next g w = for_paths format [p] w
       ∧ gen_next g' w = for_paths format [p] w
       ∧ gen_close g w = gen_close g' w)
  ∧ (∀ path p format w,
       Path path = inr p →
       path_key p = path_key path →
       ∃ g g', read_sequences path format w = (inr g, w)
         ∧ read_sequences (PyList [path]) format w = (inr g', w)
         ∧ gen_next g w = for_paths format [path] w
         ∧ gen_next g' w = for_paths format [path] w
         ∧ gen_close g w = gen_close g' w)
  ∧ (∀ s, Path (PyPath s) = inr (PyPath s))
  ∧ (∀ paths format w fuel g w0 sequences fin g' w',
       read_sequences (PyList paths) format w = (inr g, w0) →
       consume fuel g w0 = ((sequences, fin), (g', w')) →
       ∃ evs done,
         trace w' = trace w ++ evs
         ∧ Some <$> opened evs = path_key <$> done
         ∧ done `prefix_of` paths
         ∧ (fin = Exhausted → done = paths)).
Proof.
  split_and!.
  - intros path p format w Hp.
    exists (GenCreated path format), (GenCreated (PyList [p]) format).
    split_and!; [done..|by apply gen_next_Path|done|done].
  - intros path p format w Hp Hk.
    exists (GenCreated path format), (GenCreated (PyList [path]) format).
    split_and!; [done..| |done|done].
    rewrite (gen_next_Path _ _ _ _ Hp). by apply for_paths_path_key.
  - done.
  - intros paths format w fuel g w0 sequences fin g' w' [= <- <-] Hc.
    by apply consume_progress in Hc.
Qed.

(** C4: records the codec reads back as many as it wrote, written to a path
    and read from the same path under the same format, come back as many as
    they were. *)
Theorem write_then_read_count records path format w key :
  path_layer_sound →
  writable w path key →
  read_faults w !! key = None →
  round_trips format records →
  ∃ w1 g parsed w2,
    write_sequences (PyList (PyRecord <$> records)) path format w =
      (inr (Z.of_nat (length records)), w1)
    ∧ read_sequences path format w1 = (inr g, w1)
    ∧ consume (S (length records)) g w1 =
        ((parsed, Exhausted), (GenFinished, w2))
    ∧ length parsed = length records.
Proof.
  intros Hs Hw Hr (text & parsed & Hwr & Hpa & Hlen).
  set (sequences := PyList (PyRecord <$> records)).
  set (w1 := after_write sequences key format (fresh_handle w) w).
  assert (holds w1 path key text) as Hh.
  { destruct Hw as [Hk _]. split_and!; [done|done|].
    unfold w1. rewrite after_write_files. unfold written, sequences.
    rewrite Hwr. apply lookup_insert_eq. }
  destruct (consume_step_readable format w1 [path] [parsed]) with
    (more := @nil pyobj) (fuel := O) (w0 := w1) as (w2 & _ & _ & Hc).
  { repeat constructor. by exists key, text. }
  { done. }
  exists w1, (GenCreated path format), parsed, w2. split_and!; [|done| |done].
  - unfold w1. rewrite (write_sequences_run _ _ _ _ key) by done.
    unfold outcome, sequences. by rewrite Hwr.
  - rewrite consume_S, gen_next_single; [|done|].
    + change (concat [parsed]) with (parsed ++ []) in Hc.
      change ([path] ++ []) with [path] in Hc.
      rewrite app_nil_r, Nat.add_0_r, Hlen in Hc.
      rewrite Hc. simpl. by rewrite app_nil_r.
    + destruct Hw as [Hk _]. apply path_key_fspath in Hk as (s & -> & _). eauto.
Qed.

(** ** Handles *)

Lemma for_paths_handles format paths w sig g' w' :
  for_paths format paths w = ((sig, g'), w') →
  open_handles w' = open_handles w ∪ held g' ∧ held g' ## open_handles w.
Proof.
  revert w sig g' w'.
  induction paths as [|path rest IH]; intros w sig g' w'; simpl.
  - intros [= <- <- <-]. simpl. set_solver.
  - destruct (xopen path "r" w) as [[e|h] w1] eqn:Hx;
      apply xopen_handles in Hx.
    + intros [= <- <- <-]. simpl. set_solver.
    + destruct Hx as [-> Ho1].
      pose proof (fresh_handle_closed w) as Hfresh.
      set (h := fresh_handle w) in *.
      assert (open_handles (handle_close h w1) = open_handles w) as Hclosed.
      { rewrite open_handles_close, Ho1. set_solver. }
      destruct (SeqIO_parse h format w1) as [[e|[sequences tail]] w2] eqn:Hp;
        apply SeqIO_parse_world in Hp as ->.
      * intros [= <- <- <-]. simpl. rewrite Hclosed. set_solver.
      * destruct sequences as [|sequence pending]; simpl.
        -- destruct tail as [e|].
           ++ intros [= <- <- <-]. simpl. rewrite Hclosed. set_solver.
           ++ intros Hf. apply IH in Hf. by rewrite Hclosed in Hf.
        -- intros [= <- <- <-]. simpl. rewrite Ho1. set_solver.
Qed.

Lemma gen_next_holding base g w sig g' w' :
  holding base g w →
  gen_next g w = ((sig, g'), w') →
  holding base g' w'.
Proof.
  intros [Ho Hd].
  destruct g as [paths format|h pending tail rest format|]; simpl.
  - simpl in Ho, Hd.
    destruct (normalize_paths paths) as [e|paths'].
    { intros [= <- <- <-]. by split. }
    destruct (py_iter paths') as [e|items].
    { intros [= <- <- <-]. by split. }
    intros Hf. apply for_paths_handles in Hf as [Ho' Hd'].
    split; [rewrite Ho', Ho|]; set_solver.
  - simpl in Ho, Hd.
    assert (open_handles (handle_close h w) = base) as Hclosed.
    { rewrite open_handles_close, Ho. set_solver. }
    destruct pending as [|sequence pending]; simpl.
    + destruct tail as [e|].
      * intros [= <- <- <-]. split; simpl; [rewrite Hclosed|]; set_solver.
      * intros Hf. apply for_paths_handles in Hf as [Ho' Hd'].
        rewrite Hclosed in Ho', Hd'. by split.
    + intros [= <- <- <-]. by split.
  - intros [= <- <- <-]. by split.
Qed.

Lemma gen_steps_holding n base g w g' w' :
  holding base g w →
  gen_steps n g w = (g', w') →
  holding base g' w'.
Proof.
  revert g w. induction n as [|n IH]; intros g w Hh; simpl.
  - by intros [= <- <-].
  - destruct (gen_next g w) as [[sig g1] w1] eqn:Hn.
    apply IH. by eapply gen_next_holding.
Qed.

Lemma gen_close_holding base g w :
  holding base g w → open_handles (gen_close g w).2 = base.
Proof.
  intros [Ho Hd]. destruct g; simpl in *; [set_solver| |set_solver].
  rewrite open_handles_close, Ho. set_solver.
Qed.

Lemma for_paths_finished format paths w sig g' w' :
  for_paths format paths w = ((sig, g'), w') →
  (∀ sequence, sig ≠ Yield sequence) → g' = GenFinished.
Proof.
  revert w. induction paths as [|path rest IH]; intros w; simpl.
  - by intros [= <- <- <-].
  - destruct (xopen path "r" w) as [[e|h] w1]; [by intros [= <- <- <-]|].
    destruct (SeqIO_parse h format w1) as [[e|[sequences tail]] w2];
      [by intros [= <- <- <-]|].
    destruct sequences as [|sequence pending]; simpl.
    + destruct tail as [e|]; [by intros [= <- <- <-]|apply IH].
    + intros [= <- <- <-] Hy. by destruct (Hy sequence).
Qed.

Lemma gen_next_finished g w sig g' w' :
  gen_next g w = ((sig, g'), w') →
  (∀ sequence, sig ≠ Yield sequence) → g' = GenFinished.
Proof.
  destruct g as [paths format|h pending tail rest format|]; simpl.
  - destruct (normalize_paths paths) as [e|paths']; [by intros [= <- <- <-]|].
    destruct (py_iter paths') as [e|items]; [by intros [= <- <- <-]|].
    apply for_paths_finished.
  - destruct pending as [|sequence pending]; simpl.
    + destruct tail as [e|]; [by intros [= <- <- <-]|apply for_paths_finished].
    + intros [= <- <- <-] Hy. by destruct (Hy sequence).
  - by intros [= <- <- <-].
Qed.

Lemma write_sequences_handles sequences path format w :
  open_handles (write_sequences sequences path format w).2 = open_handles w.
Proof.
  unfold write_sequences.
  destruct (isinstance_SeqRecord sequences); [done|].
  unfold mbind, IO_bind, bind, with_handle.
  destruct (xopen path "wt" w) as [[e|h] w1] eqn:Hx;
    apply xopen_handles in Hx; [done|].
  destruct Hx as [-> Ho1].
  destruct (SeqIO_write sequences _ format w1) as [r w2] eqn:Hs.
  apply SeqIO_write_handles in Hs.
  assert (open_handles (handle_close (fresh_handle w) w2) = open_handles w).
  { rewrite open_handles_close. unfold open_handles at 1. rewrite Hs.
    fold (open_handles w1). rewrite Ho1.
    pose proof (fresh_handle_closed w). set_solver. }
  by destruct r.
Qed.

(** C7: no handle outlives its use.  [write_sequences] leaves open exactly
    the handles that were open, whether it returns or raises.  A generator
    of [read_sequences], after any number of calls of [next], has at most
    its own handle open besides them; closing or dropping it there, or a
    further [next] that ends the stream or raises, leaves open exactly the
    handles that were open when it was made. *)
Theorem handles_are_released w :
  (∀ sequences path format,
     open_handles (write_sequences sequences path format w).2 = open_handles w)
  ∧ (∀ paths format n g w1,
       gen_steps n (GenCreated paths format) w = (g, w1) →
       open_handles w1 = open_handles w ∪ held g
       ∧ open_handles (gen_close g w1).2 = open_handles w
       ∧ ∀ sig g2 w2,
           gen_next g w1 = ((sig, g2), w2) →
           (∀ sequence, sig ≠ Yield sequence) →
           g2 = GenFinished ∧ open_handles w2 = open_handles w).
Proof.
  split; [intros; apply write_sequences_handles|].
  intros paths format n g w1 Hsteps.
  assert (holding (open_handles w) g w1) as Hh.
  { eapply gen_steps_holding; [|exact Hsteps]. split; simpl; set_solver. }
  split_and!; [apply Hh|by apply gen_close_holding|].
  intros sig g2 w2 Hn Hy.
  pose proof (gen_next_finished _ _ _ _ _ Hn Hy) as ->.
  split; [done|].
  destruct (gen_next_holding _ _ _ _ _ _ Hh Hn) as [Ho _].
  rewrite Ho. simpl. set_solver.
Qed.

End Properties.

(** * Further properties of the two functions *)

Section Storage.
Context `{PathLayer} `{Codec}.

(** ** Reading leaves the storage alone *)

Lemma same_disk_sym w w' : same_disk w w' → same_disk w' w.
Proof. unfold same_disk. intros (-> & -> & ->). done. Qed.

Lemma xopen_read_same_disk path w r w1 :
  xopen path "r" w = (r, w1) → same_disk w w1.
Proof.
  unfold xopen. rewrite parse_mode_r.
  destruct (fspath path) as [s|]; [|by intros [= <- <-]].
  unfold open_key.
  destruct (match read_faults w !! resolve s with
            | Some e => Some e | None => _ end); by intros [= <- <-].
Qed.

Lemma for_paths_same_disk format paths w :
  same_disk w (for_paths format paths w).2.
Proof.
  revert w. induction paths as [|path rest IH]; intros w; simpl; [done|].
  destruct (xopen path "r" w) as [[e|h] w1] eqn:Hx;
    apply xopen_read_same_disk in Hx; [done|].
  destruct (SeqIO_parse h format w1) as [[e|[sequences tail]] w2] eqn:Hp;
    apply SeqIO_parse_world in Hp as ->; [done|].
  destruct sequences as [|sequence pending]; simpl; [|done].
  destruct tail as [e|]; [done|].
  eapply same_disk_trans; [|apply IH]. done.
Qed.

Lemma gen_next_same_disk g w : same_disk w (gen_next g w).2.
Proof.
  destruct g as [paths format|h pending tail rest format|]; simpl; [| |done].
  - destruct (normalize_paths paths) as [e|paths']; [done|].
    destruct (py_iter paths') as [e|items]; [done|].
    apply for_paths_same_disk.
  - destruct pending as [|sequence pending]; simpl; [|done].
    destruct tail as [e|]; [done|].
    eapply same_disk_trans; [|apply for_paths_same_disk]. done.
Qed.

Lemma consume_same_disk fuel g w : same_disk w (consume fuel g w).2.2.
Proof.
  revert g w. induction fuel as [|fuel IH]; intros g w; [done|].
  rewrite consume_S. pose proof (gen_next_same_disk g w) as Hn.
  destruct (gen_next g w) as [[[sequence| |e] g1] w1]; simpl in *; [|done..].
  pose proof (IH g1 w1) as Hc.
  destruct (consume fuel g1 w1) as [[l fin] [g2 w2]]; simpl in *.
  by eapply same_disk_trans.
Qed.

(** X1: a generator of [read_sequences], in whatever state, never changes a
    file nor what can be opened: not by [next], not by being closed, not by
    being consumed. *)
Theorem reading_leaves_storage g w :
  same_disk w (gen_next g w).2
  ∧ same_disk w (gen_close g w).2
  ∧ ∀ fuel, same_disk w (consume fuel g w).2.2.
Proof.
  split_and!.
  - apply gen_next_same_disk.
  - by destruct g.
  - intros fuel. apply consume_same_disk.
Qed.

(** ** Writing changes the destination alone *)



(** X3: when the destination cannot be opened, the exception of the opener
    is raised and every file, the destination too, holds what it held:
    nothing is truncated before the failure. *)
Theorem write_sequences_failed_open sequences path format w e w1 :
  isinstance_SeqRecord sequences = false →
  xopen path "wt" w = (inl e, w1) →
  (write_sequences sequences path format w).1 = inl e
  ∧ files (write_sequences sequences path format w).2 = files w
  ∧ open_handles (write_sequences sequences path format w).2 = open_handles w.
Proof.
  intros Hg Hx.
  assert (write_sequences sequences path format w = (inl e, w1)) as ->.
  { unfold write_sequences. rewrite Hg.
    unfold mbind, IO_bind, bind, with_handle. by rewrite Hx. }
  split_and!; [done| |by apply xopen_handles in Hx].
  revert Hx. unfold xopen. rewrite parse_mode_wt.
  destruct (fspath path) as [s|]; [|by intros [= <- <-]].
  unfold open_key.
  destruct (match write_faults w !! resolve s with
            | Some e0 => Some e0 | None => None end); by intros [= <- <-].
Qed.

Lemma writable_after_write sequences key format h w path key' :
  writable w path key' →
  writable (after_write sequences key format h w) path key'.
Proof. done. Qed.

(** X4: two calls on the same destination do not add up: after the second
    the files are what the second call alone would have left, and the
    destination holds the text of the second call only. *)
Theorem write_sequences_twice first second path format format' w key :
  isinstance_SeqRecord first = false →
  isinstance_SeqRecord second = false →
  writable w path key →
  let w1 := (write_sequences first path format w).2 in
  write_sequences second path format' w1 =
    (outcome second format',
     after_write second key format' (fresh_handle w1) w1)
  ∧ files (write_sequences second path format' w1).2 =
      files (write_sequences second path format' w).2
  ∧ files (write_sequences second path format' w1).2 !! key =
      Some (written second format').
Proof.
  intros Hg1 Hg2 Hw w1.
  assert (w1 = after_write first key format (fresh_handle w) w) as Hw1.
  { unfold w1. by rewrite (write_sequences_run _ _ _ _ key). }
  assert (writable w1 path key) as Hw'.
  { rewrite Hw1. by apply writable_after_write. }
  rewrite (write_sequences_run _ _ _ w1 key), (write_sequences_run _ _ _ w key)
    by done.
  split_and!; [done| |].
  - cbn [snd]. rewrite !after_write_files, Hw1, after_write_files.
    apply insert_insert_eq.
  - cbn [snd]. rewrite after_write_files. apply lookup_insert_eq.
Qed.

(** ** Reading what was written *)

(** X5: what is read from a path after a call of [write_sequences] on it
    is what the codec parses from the text that call sent, whether the call
    returned or the codec raised, and whatever the two formats. *)
Theorem read_after_write sequences path format format' w key parsed fuel :
  path_layer_sound →
  isinstance_SeqRecord sequences = false →
  writable w path key →
  read_faults w !! key = None →
  seqio_parse (written sequences format) format' = inr (parsed, None) →
  (length parsed < fuel)%nat →
  let w1 := (write_sequences sequences path format w).2 in
  (consume fuel (GenCreated path format') w1).1 = (parsed, Exhausted).
Proof.
  intros Hs Hg Hw Hr Hp Hfuel w1.
  assert (w1 = after_write sequences key format (fresh_handle w) w) as Hw1.
  { unfold w1. by rewrite (write_sequences_run _ _ _ _ key). }
  assert (holds w1 path key (written sequences format)) as Hh.
  { destruct Hw as [Hk _]. split_and!; [done|by rewrite Hw1|].
    rewrite Hw1, after_write_files. apply lookup_insert_eq. }
  destruct fuel as [|fuel]; [lia|].
  destruct (consume_step_readable format' w1 [path] [parsed]) with
    (more := @nil pyobj) (fuel := (fuel - length parsed)%nat) (w0 := w1)
    as (w2 & _ & _ & Hc).
  { repeat constructor. by exists key, (written sequences format). }
  { done. }
  rewrite consume_S, gen_next_single; [|done|].
  - change (concat [parsed]) with (parsed ++ []) in Hc.
    change ([path] ++ []) with [path] in Hc.
    rewrite app_nil_r in Hc.
    replace fuel with (length parsed + (fuel - length parsed))%nat at 1 by lia.
    rewrite Hc. simpl. by rewrite app_nil_r.
  - destruct Hw as [Hk _]. apply path_key_fspath in Hk as (s & -> & _). eauto.
Qed.

End Storage.

Section Streaming.
Context `{PathLayer} `{Codec}.

(** ** A consumer that stops early *)

Lemma consume_step_short n h pending tail rest format w :
  (n < length pending)%nat →
  (consume_step n
     (for_sequences (for_paths format rest) h pending tail rest format w)).1 =
    (take (S n) pending, Unfinished).
Proof.
  revert pending. induction n as [|n IH]; intros [|sequence pending] Hn;
    simpl in Hn; try lia.
  - reflexivity.
  - cbn [for_sequences consume_step]. rewrite consume_S. cbn [gen_next].
    specialize (IH pending ltac:(lia)).
    destruct (consume_step n _) as [[l fin] gw]. simpl in *.
    by injection IH as -> ->.
Qed.

Lemma consume_step_readable_short format w paths parsed :
  Forall2 (readable format w) paths parsed →
  ∀ more n w0, same_disk w w0 →
  (n < length (concat parsed))%nat →
  (consume_step n (for_paths format (paths ++ more) w0)).1 =
    (take (S n) (concat parsed), Unfinished).
Proof.
  induction 1 as [|path sequences paths parsed (key & content & Hh & Hp) _ IH];
    intros more n w0 Hd Hn; [simpl in Hn; lia|].
  pose proof (holds_same_disk _ _ _ _ _ Hd Hh) as Hh0.
  cbn [concat app] in *. rewrite length_app in Hn.
  rewrite (for_paths_holds _ _ _ _ _ _ Hh0), Hp. cbv zeta.
  destruct (decide (n < length sequences)%nat) as [Hshort|Hlong].
  - rewrite consume_step_short by done.
    by rewrite take_app_le by lia.
  - replace n with (length sequences + (n - length sequences))%nat at 1 by lia.
    rewrite consume_step_pending. cbn [for_sequences].
    set (w1 := handle_close _ _).
    specialize (IH more (n - length sequences)%nat w1).
    destruct (consume_step _ (for_paths format (paths ++ more) w1))
      as [[l fin] gw].
    simpl in *.
    assert (same_disk w w1) as Hd1 by (eapply same_disk_trans; [exact Hd|done]).
    specialize (IH Hd1 ltac:(lia)). injection IH as -> ->.
    replace (S n) with (length sequences + S (n - length sequences))%nat by lia.
    by rewrite take_app_add.
Qed.

(** X6: a consumer that takes [n] records from paths that open and parse
    gets the first [n] records of the concatenation, in order; the first
    [next] gives the first record. *)
Theorem read_sequences_prefix format w paths parsed n :
  Forall2 (readable format w) paths parsed →
  (n ≤ length (concat parsed))%nat →
  (consume n (GenCreated (PyList paths) format) w).1 =
    (take n (concat parsed), Unfinished)
  ∧ ∀ first others,
      concat parsed = first :: others →
      (gen_next (GenCreated (PyList paths) format) w).1.1 = Yield first.
Proof.
  intros Hr Hn.
  assert (∀ m, (m < length (concat parsed))%nat →
            (consume (S m) (GenCreated (PyList paths) format) w).1 =
              (take (S m) (concat parsed), Unfinished)) as Hpos.
  { intros m Hm. rewrite consume_S, gen_next_list.
    rewrite <- (app_nil_r paths).
    by apply (consume_step_readable_short _ _ _ _ Hr [] m w). }
  split.
  - destruct n as [|n]; [by rewrite take_0|]. apply Hpos. lia.
  - intros first others Hc.
    specialize (Hpos O). rewrite Hc in Hpos. specialize (Hpos ltac:(simpl; lia)).
    rewrite consume_S in Hpos.
    destruct (gen_next _ w) as [[[sequence| |e] g1] w1]; simpl in *; [|done..].
    by injection Hpos as ->.
Qed.

(** ** The stream depends on the storage alone *)

Lemma xopen_read_cases path w :
  (∃ e, ∀ w', same_disk w w' →
          ∃ w1', xopen path "r" w' = (inl e, w1') ∧ same_disk w' w1')
  ∨ (∃ key content, holds w path key content).
Proof.
  unfold xopen, holds, path_key. rewrite parse_mode_r.
  destruct (fspath path) as [s|]; simpl.
  - destruct (read_faults w !! resolve s) as [e|] eqn:Hf.
    + left. exists e. intros w' (Hfi & Hr & _). eexists.
      unfold open_key. rewrite Hr, Hf. done.
    + destruct (files w !! resolve s) as [content|] eqn:Hc.
      * right. by exists (resolve s), content.
      * left. exists (FileNotFoundError (resolve s)).
        intros w' (Hfi & Hr & _). eexists.
        unfold open_key. rewrite Hr, Hfi, Hf, Hc. done.
  - left. eexists. intros w' _. by eexists.
Qed.

(** Two runs of the outer loop on the same storage give the same signal and
    stop at the same point. *)
Lemma for_paths_same_point format paths w w' :
  same_disk w w' →
  (for_paths format paths w).1.1 = (for_paths format paths w').1.1
  ∧ same_point (for_paths format paths w).1.2 (for_paths format paths w').1.2
  ∧ same_disk (for_paths format paths w).2 (for_paths format paths w').2.
Proof.
  revert w w'. induction paths as [|path rest IH]; intros w w' Hd; [done|].
  destruct (xopen_read_cases path w) as [(e & He)|(key & content & Hh)].
  - destruct (He w (same_disk_refl w)) as (w1 & Hx & Hd1).
    destruct (He w' Hd) as (w1' & Hx' & Hd1').
    cbn [for_paths]. rewrite Hx, Hx'. split_and!; [done..|].
    apply same_disk_sym in Hd1.
    eapply same_disk_trans; [exact Hd1|]. by eapply same_disk_trans.
  - pose proof (holds_same_disk _ _ _ _ _ Hd Hh) as Hh'.
    rewrite (for_paths_holds _ _ _ _ _ _ Hh), (for_paths_holds _ _ _ _ _ _ Hh').
    cbv zeta.
    destruct (seqio_parse content format) as [e|[sequences tail]]; [done|].
    destruct sequences as [|sequence pending]; cbn [for_sequences]; [|done].
    destruct tail as [e|]; [done|]. by apply IH.
Qed.

Lemma gen_next_same_point g g' w w' :
  same_disk w w' → same_point g g' →
  (gen_next g w).1.1 = (gen_next g' w').1.1
  ∧ same_point (gen_next g w).1.2 (gen_next g' w').1.2
  ∧ same_disk (gen_next g w).2 (gen_next g' w').2.
Proof.
  intros Hd Hg.
  destruct g as [paths format|h pending tail rest format|],
           g' as [paths' format'|h' pending' tail' rest' format'|];
    try done; cbn [gen_next].
  - destruct Hg as [<- <-].
    destruct (normalize_paths paths) as [e|paths1]; [done|].
    destruct (py_iter paths1) as [e|items]; [done|].
    by apply for_paths_same_point.
  - destruct Hg as (<- & <- & <- & <-).
    destruct pending as [|sequence pending]; cbn [for_sequences]; [|done].
    destruct tail as [e|]; [done|]. by apply for_paths_same_point.
Qed.

Lemma consume_same_point fuel g g' w w' :
  same_disk w w' → same_point g g' →
  (consume fuel g w).1 = (consume fuel g' w').1.
Proof.
  revert g g' w w'. induction fuel as [|fuel IH]; intros g g' w w' Hd Hg;
    [done|].
  rewrite !consume_S.
  destruct (gen_next_same_point g g' w w' Hd Hg) as (Hsig & Hg1 & Hd1).
  destruct (gen_next g w) as [[sig g1] w1], (gen_next g' w') as [[sig' g1'] w1'].
  simpl in *. subst sig'. destruct sig as [sequence| |e]; simpl; [|done..].
  specialize (IH g1 g1' w1 w1' Hd1 Hg1).
  destruct (consume fuel g1 w1) as [[l fin] gw],
           (consume fuel g1' w1') as [[l' fin'] gw'].
  simpl in *. by injection IH as -> ->.
Qed.

Lemma same_point_refl g : same_point g g.
Proof. by destruct g. Qed.

Lemma gen_steps_same_disk n g w : same_disk w (gen_steps n g w).2.
Proof.
  revert g w. induction n as [|n IH]; intros g w; [done|].
  cbn [gen_steps]. pose proof (gen_next_same_disk g w) as Hn.
  destruct (gen_next g w) as [[sig g1] w1]. simpl in Hn.
  eapply same_disk_trans; [exact Hn|apply IH].
Qed.

(** X7: the records a consumer gets, and how the stream ends, depend on the
    files and on what can be opened, not on the handles that are open nor
    on what happened before; so a second generator over the same paths,
    made after any use of a first one, gives what the first would have
    given. *)
Theorem read_sequences_restartable paths format fuel w :
  (∀ w', same_disk w w' →
     (consume fuel (GenCreated paths format) w').1 =
       (consume fuel (GenCreated paths format) w).1)
  ∧ (∀ fuel0 n,
       (consume fuel (GenCreated paths format)
                (consume fuel0 (GenCreated paths format) w).2.2).1 =
         (consume fuel (GenCreated paths format) w).1
       ∧ (consume fuel (GenCreated paths format)
                  (gen_steps n (GenCreated paths format) w).2).1 =
           (consume fuel (GenCreated paths format) w).1).
Proof.
  assert (∀ w', same_disk w w' →
            (consume fuel (GenCreated paths format) w').1 =
              (consume fuel (GenCreated paths format) w).1) as Hsame.
  { intros w' Hd. symmetry. apply consume_same_point; [done|].
    apply same_point_refl. }
  split; [done|]. intros fuel0 n. split.
  - apply Hsame, consume_same_disk.
  - apply Hsame, gen_steps_same_disk.
Qed.

(** ** A generator and the handles of others *)

(** X8: [next] closes no handle but the one the generator holds and leaves
    open no new handle but the one it then holds; closing the generator
    closes the handle it holds and no other. *)
Theorem gen_next_own_handle g w :
  held g ⊆ open_handles w →
  open_handles (gen_next g w).2 =
    (open_handles w ∖ held g) ∪ held (gen_next g w).1.2
  ∧ held (gen_next g w).1.2 ## open_handles w ∖ held g
  ∧ open_handles (gen_close g w).2 = open_handles w ∖ held g.
Proof.
  intros Hsub.
  assert (holding (open_handles w ∖ held g) g w) as Hh.
  { split; [|set_solver].
    rewrite (union_difference_L _ _ Hsub) at 1. set_solver. }
  destruct (gen_next g w) as [[sig g1] w1] eqn:Hn.
  destruct (gen_next_holding _ _ _ _ _ _ Hh Hn) as [Ho Hd].
  split_and!; [done|done|by apply gen_close_holding].
Qed.

End Streaming.

(** * The helpers of the tests *)

Section TestHelpers.
Import Tests.

Lemma choice_in population r :
  population ≠ [] → (choice population r).1 ∈ population.
Proof.
  intros Hne. unfold choice; simpl. apply list_elem_of_In, nth_In.
  apply Nat.mod_upper_bound. by destruct population.
Qed.

Lemma choices_spec population k r :
  population ≠ [] →
  length (choices population k r).1 = k
  ∧ Forall (.∈ population) (choices population k r).1
  ∧ drawn (choices population k r).2 = (drawn r + k)%nat.
Proof.
  intros Hne. revert r. induction k as [|k IH]; intros r.
  - simpl. split_and!; [done|constructor|lia].
  - cbn [choices]. pose proof (choice_in population r Hne) as Hc.
    destruct (choice population r) as [c r1] eqn:Hch.
    assert (drawn r1 = S (drawn r)) as Hd
      by (unfold choice in Hch; by injection Hch as <- <-).
    destruct (IH r1) as (Hl & Hf & Hn).
    destruct (choices population k r1) as [cs r2]. simpl in *.
    split_and!; [by rewrite Hl|by constructor|lia].
Qed.

Lemma random_seq_spec k r :
  length (Strings.String.list_ascii_of_string (random_seq k r).1) = k
  ∧ Forall (.∈ nucleotides) (Strings.String.list_ascii_of_string (random_seq k r).1)
  ∧ drawn (random_seq k r).2 = (drawn r + k)%nat.
Proof.
  unfold random_seq.
  destruct (choices_spec nucleotides k r) as (Hl & Hf & Hn); [done|].
  destruct (choices nucleotides k r) as [letters r']. simpl in *.
  by rewrite Strings.String.list_ascii_of_string_of_list_ascii.
Qed.

Lemma generate_for_spec indices k r :
  rec_id <$> (generate_for indices k r).1 = seq_id <$> indices
  ∧ Forall (λ record,
             length (Strings.String.list_ascii_of_string (rec_seq record)) = k
             ∧ Forall (.∈ nucleotides) (Strings.String.list_ascii_of_string (rec_seq record)))
           (generate_for indices k r).1
  ∧ drawn (generate_for indices k r).2 = (drawn r + length indices * k)%nat.
Proof.
  revert r. induction indices as [|i rest IH]; intros r.
  - simpl. split_and!; [done|constructor|lia].
  - cbn [generate_for].
    destruct (random_seq_spec k r) as (Hl & Hf & Hn).
    destruct (random_seq k r) as [letters r1].
    destruct (IH r1) as (Hid & Hall & Hd).
    destruct (generate_for rest k r1) as [records r2]. cbn [fst snd] in *.
    split_and!.
    + by rewrite !fmap_cons, Hid.
    + by constructor.
    + cbn [length]. lia.
Qed.

Lemma seq_id_inj : Inj (=) (=) seq_id.
Proof.
  intros i j Hij. unfold seq_id in Hij.
  by apply (inj pretty), (inj (String.app "SEQ_")).
Qed.

(** X9: whatever the random source draws, [generate_sequences(n, k)] gives
    [n] records whose ids are SEQ_1 ... SEQ_n in this order, no two alike,
    each with a sequence of exactly [k] letters among A, T, G and C; it
    draws [n * k] times. *)
Theorem generate_sequences_spec n k r :
  length (generate_sequences n k r).1 = n
  ∧ rec_id <$> (generate_sequences n k r).1 = seq_id <$> seq 1 n
  ∧ NoDup (rec_id <$> (generate_sequences n k r).1)
  ∧ Forall (λ record,
             length (Strings.String.list_ascii_of_string (rec_seq record)) = k
             ∧ Forall (.∈ nucleotides) (Strings.String.list_ascii_of_string (rec_seq record)))
           (generate_sequences n k r).1
  ∧ drawn (generate_sequences n k r).2 = (drawn r + n * k)%nat.
Proof.
  unfold generate_sequences.
  destruct (generate_for_spec (seq 1 n) k r) as (Hid & Hall & Hd).
  split_and!; [|done| |done|by rewrite length_seq in Hd].
  - apply (f_equal length) in Hid. by rewrite !length_fmap, length_seq in Hid.
  - rewrite Hid. apply (NoDup_fmap_2 _), NoDup_seq.
Qed.

Lemma sequences_fixture_first r :
  ∃ first others, sequences_fixture r = first :: others.
Proof.
  unfold sequences_fixture, generate_sequences.
  change (seq 1 3) with [1; 2; 3]%nat. cbn [generate_for].
  destruct (random_seq 10 r) as [letters r1].
  destruct (random_seq 10 r1) as [letters2 r2].
  destruct (random_seq 10 r2) as [letters3 r3]. simpl. eauto.
Qed.

Context `{PathLayer} `{Codec}.

(** X10: on the records of the fixture, whatever was drawn and whatever the
    world, [test_write_single_sequence_object_to_file] ends with the
    [TypeError] of the guard and does not reach its assertion, and the loop
    of [test_write_single_sequence_objects_to_file_in_loop] raises it at
    its first record; neither creates the file. *)
Theorem single_record_tests_raise tmpdir r w :
  test_write_single_sequence_object_to_file tmpdir (sequences_fixture r) w =
    (Errored single_record_error, w)
  ∧ write_in_loop (sequences_fixture r) (new_sequences tmpdir) 0 w =
      (inl single_record_error, w).
Proof.
  destruct (sequences_fixture_first r) as (first & others & ->). by split.
Qed.

End TestHelpers.

(** * The properties on the reference path layer and codec *)

Import Reference.

Lemma strip_dot_idem s : strip_dot (strip_dot s) = strip_dot s.
Proof.
  assert (∀ s, strip_dot (strip_dot s) = strip_dot s
               ∧ ∀ c, strip_dot (strip_dot (String c s)) = strip_dot (String c s))
    as Hboth; [|apply Hboth].
  clear s. induction s as [|c s [IH1 IH2]]; [by split|].
  split; [apply IH2|]. intros c0. cbn [strip_dot].
  destruct (bool_decide (c0 = "."%char) && bool_decide (c = "/"%char)) eqn:Hc;
    [apply IH1|].
  cbn [strip_dot]. by rewrite Hc.
Qed.

Lemma posix_sound : path_layer_sound.
Proof. intros s. apply strip_dot_idem. Qed.

Lemma fasta_write_items_count items text count :
  fasta_write_items items = (text, inr count) → count = Z.of_nat (length items).
Proof.
  revert text count. induction items as [|item items IH]; intros text count.
  - by intros [= <- <-].
  - destruct item; try done. cbn [fasta_write_items].
    destruct (fasta_write_items items) as [text' [e|n]]; [done|].
    intros [= <- <-]. rewrite (IH text' n eq_refl). cbn [length]. lia.
Qed.

Lemma fasta_counts : codec_counts.
Proof.
  intros items format text count. cbn [seqio_write fasta]. unfold fasta_write.
  destruct (bool_decide (format = "fasta")); [|done].
  apply fasta_write_items_count.
Qed.

(** The guard on a record of the reference disk. *)
Example write_single_record_raises :
  write_sequences (PyRecord seq1) (PyStr "new.fasta") "fasta" disk =
    (inl single_record_error, disk).
Proof. reflexivity. Qed.

(** Three records go to a gzip-named file and three are counted. *)
Example write_three_records :
  (write_sequences (PyList [PyRecord seq1; PyRecord seq2; PyRecord seq3])
                   (PyStr "out.fasta.gz") "fasta" disk).1 = inr 3.
Proof. vm_compute. reflexivity. Qed.

(** Two files read one after the other. *)
Example read_two_files :
  (consume 10 (GenCreated (PyList [PyStr "a.fasta"; PyPath "b.fasta"]) "fasta")
           disk).1 = ([seq1; seq2; seq3], Exhausted).
Proof. vm_compute. reflexivity. Qed.

Lemma read_sequences_single_path_as_Path_witness :
  (∃ g g', read_sequences (PyStr "./a.fasta") "fasta" disk = (inr g, disk)
     ∧ read_sequences (PyList [PyPath "a.fasta"]) "fasta" disk = (inr g', disk)
     ∧ gen_next g disk = for_paths "fasta" [PyPath "a.fasta"] disk
     ∧ gen_next g' disk = for_paths "fasta" [PyPath "a.fasta"] disk
     ∧ gen_close g disk = gen_close g' disk)
  ∧ (∃ g g', read_sequences (PyStr "./a.fasta") "fasta" disk = (inr g, disk)
       ∧ read_sequences (PyList [PyStr "./a.fasta"]) "fasta" disk = (inr g', disk)
       ∧ gen_next g disk = for_paths "fasta" [PyStr "./a.fasta"] disk
       ∧ gen_next g' disk = for_paths "fasta" [PyStr "./a.fasta"] disk
       ∧ gen_close g disk = gen_close g' disk)
  ∧ (let res := consume 10 (GenCreated (PyList revisited) "fasta") disk in
     ∃ evs done,
       trace res.2.2 = trace disk ++ evs
       ∧ Some <$> opened evs = path_key <$> done
       ∧ done `prefix_of` revisited
       ∧ (res.1.2 = Exhausted → done = revisited)).
Proof.
  destruct read_sequences_single_path_as_Path as (Hone & Hsame & _ & Hmany).
  split_and!.
  - apply (Hone (PyStr "./a.fasta") (PyPath "a.fasta") "fasta" disk).
    reflexivity.
  - apply (Hsame (PyStr "./a.fasta") (PyPath "a.fasta") "fasta" disk);
      reflexivity.
  - intros res.
    apply (Hmany revisited "fasta" disk 10%nat
             (GenCreated (PyList revisited) "fasta") disk
             res.1.1 res.1.2 res.2.1 res.2.2).
    + reflexivity.
    + vm_compute. reflexivity.
Defined.

(** C2 as it was stated fails: with [pathlib] dropping the slash at the end
    and the storage refusing it, [read_sequences("a.fasta/", "fasta")]
    yields the record of the file while
    [read_sequences(["a.fasta/"], "fasta")] raises. *)
Lemma single_path_is_not_the_list_of_it :
  read_sequences (PyStr "a.fasta/") "fasta" Pathlib.slash_disk =
    (inr (GenCreated (PyStr "a.fasta/") "fasta"), Pathlib.slash_disk)
  ∧ read_sequences (PyList [PyStr "a.fasta/"]) "fasta" Pathlib.slash_disk =
      (inr (GenCreated (PyList [PyStr "a.fasta/"]) "fasta"), Pathlib.slash_disk)
  ∧ @gen_next Pathlib.trailing_slash fasta
    (GenCreated (PyStr "a.fasta/") "fasta") Pathlib.slash_disk =
    ((Yield seq1,
      GenSuspended 0 [] None [] "fasta"),
     register "a.fasta" ModeRead 0 (files Pathlib.slash_disk) Pathlib.slash_disk)
  ∧ @gen_next Pathlib.trailing_slash fasta
      (GenCreated (PyList [PyStr "a.fasta/"]) "fasta") Pathlib.slash_disk =
      ((Raise (Pathlib.NotADirectoryError "a.fasta/"), GenFinished),
       log (EvOpenFailed ModeRead (Pathlib.NotADirectoryError "a.fasta/"))
           Pathlib.slash_disk)
  ∧ @gen_next Pathlib.trailing_slash fasta
      (GenCreated (PyStr "a.fasta/") "fasta") Pathlib.slash_disk ≠
    @gen_next Pathlib.trailing_slash fasta
      (GenCreated (PyList [PyStr "a.fasta/"]) "fasta") Pathlib.slash_disk.
Proof.
  split_and!.
  - reflexivity.
  - reflexivity.
  - vm_compute. reflexivity.
  - vm_compute. reflexivity.
  - vm_compute. discriminate.
Qed.

Lemma read_sequences_concatenates_witness :
  ∃ g w', read_sequences (PyList revisited) "fasta" disk = (inr g, disk)
    ∧ consume 6 g disk =
        ((concat [[seq1; seq2]; [seq3]; [seq1; seq2]], Exhausted), (GenFinished, w'))
    ∧ length (concat [[seq1; seq2]; [seq3]; [seq1; seq2]]) =
        sum_list (length <$> [[seq1; seq2]; [seq3]; [seq1; seq2]])
    ∧ same_disk disk w' ∧ open_handles w' = open_handles disk.
Proof.
  apply (read_sequences_concatenates "fasta" disk revisited
           [[seq1; seq2]; [seq3]; [seq1; seq2]] 6%nat).
  - repeat constructor.
    + exists "a.fasta", (fasta_text seq1 +:+ fasta_text seq2).
      split; [split_and!|]; vm_compute; reflexivity.
    + exists "b.fasta", (fasta_text seq3).
      split; [split_and!|]; vm_compute; reflexivity.
    + exists "a.fasta", (fasta_text seq1 +:+ fasta_text seq2).
      split; [split_and!|]; vm_compute; reflexivity.
  - simpl. lia.
Defined.

Lemma write_then_read_count_witness :
  ∃ w1 g parsed w2,
    write_sequences (PyList (PyRecord <$> three)) (PyStr "./new.fasta") "fasta" disk =
      (inr (Z.of_nat (length three)), w1)
    ∧ read_sequences (PyStr "./new.fasta") "fasta" w1 = (inr g, w1)
    ∧ consume (S (length three)) g w1 = ((parsed, Exhausted), (GenFinished, w2))
    ∧ length parsed = length three.
Proof.
  apply (write_then_read_count three (PyStr "./new.fasta") "fasta" disk "new.fasta").
  - exact posix_sound.
  - split; vm_compute; reflexivity.
  - vm_compute; reflexivity.
  - exists three_text, three. split_and!; vm_compute; reflexivity.
Defined.

Lemma write_sequences_returns_count_witness :
  ∃ w', write_sequences (PyList (PyRecord <$> three)) (PyStr "out.fasta.gz")
                        "fasta" disk = (inr (Z.of_nat (length three)), w')
        ∧ files w' !! "out.fasta.gz" = Some three_text.
Proof.
  apply (write_sequences_returns_count three (PyStr "out.fasta.gz") "fasta" disk
           "out.fasta.gz" three_text 3).
  - exact fasta_counts.
  - split; vm_compute; reflexivity.
  - vm_compute; reflexivity.
Defined.

Lemma write_sequences_truncates_witness :
  ∃ h w',
    write_sequences (PyList [PyRecord seq1]) (PyStr "old.fasta") "fasta" disk =
      (outcome (PyList [PyRecord seq1]) "fasta", w')
    ∧ trace w' = trace disk ++ [EvOpen "old.fasta" ModeWrite h;
                                EvWrite h (written (PyList [PyRecord seq1]) "fasta");
                                EvClose h]
    ∧ files w' = <["old.fasta" := written (PyList [PyRecord seq1]) "fasta"]>
                   (delete "old.fasta" (files disk))
    ∧ open_handles w' = open_handles disk.
Proof.
  apply (write_sequences_truncates (PyList [PyRecord seq1]) (PyStr "old.fasta")
           "fasta" disk "old.fasta").
  - reflexivity.
  - split; vm_compute; reflexivity.
Defined.

Lemma handles_are_released_witness :
  let gw := gen_steps 2 (GenCreated (PyList revisited) "fasta") disk in
  open_handles gw.2 = open_handles disk ∪ held gw.1
  ∧ open_handles (gen_close gw.1 gw.2).2 = open_handles disk
  ∧ ∀ sig g2 w2,
      gen_next gw.1 gw.2 = ((sig, g2), w2) →
      (∀ sequence, sig ≠ Yield sequence) →
      g2 = GenFinished ∧ open_handles w2 = open_handles disk.
Proof.
  intros gw.
  apply (proj2 (handles_are_released disk) (PyList revisited) "fasta" 2%nat
               gw.1 gw.2).
  vm_compute. reflexivity.
Defined.

Lemma errors_propagate_unchanged_witness :
  (∃ g w', read_sequences (PyList ([PyStr "a.fasta"] ++ PyStr "locked.fasta"
                                     :: [PyStr "b.fasta"])) "fasta" disk
             = (inr g, disk)
     ∧ consume 5 g disk =
         ((concat [[seq1; seq2]] ++ [], Failed locked_error), (GenFinished, w'))
     ∧ gen_next GenFinished w' = ((StopIteration, GenFinished), w'))
  ∧ write_sequences (PyList [PyRecord seq1]) (PyStr "ro/out.fasta") "fasta" disk =
      (inl readonly_error, log (EvOpenFailed ModeWrite readonly_error) disk)
  ∧ (∃ h w', write_sequences (PyList [PyNone]) (PyStr "new.fasta") "fasta" disk =
               (inl no_id_error, w')
       ∧ trace w' = trace disk ++ [EvOpen "new.fasta" ModeWrite h;
                                   EvWrite h (written (PyList [PyNone]) "fasta");
                                   EvClose h]).
Proof.
  split_and!.
  - apply (proj1 (errors_propagate_unchanged "fasta" disk locked_error)
             [PyStr "a.fasta"] [[seq1; seq2]] (PyStr "locked.fasta") []
             [PyStr "b.fasta"] 5%nat).
    + repeat constructor.
      exists "a.fasta", (fasta_text seq1 +:+ fasta_text seq2).
      split; [split_and!|]; vm_compute; reflexivity.
    + apply (open_raises _ _ _ _ (log (EvOpenFailed ModeRead locked_error) disk)).
      vm_compute. reflexivity.
    + simpl. lia.
  - apply (proj1 (proj2 (proj2
             (errors_propagate_unchanged "fasta" disk readonly_error)))).
    + reflexivity.
    + vm_compute. reflexivity.
  - apply (proj2 (proj2 (proj2
             (errors_propagate_unchanged "fasta" disk no_id_error)))
             (PyList [PyNone]) (PyStr "new.fasta") "new.fasta").
    + reflexivity.
    + split; vm_compute; reflexivity.
    + vm_compute. reflexivity.
Defined.

Lemma read_sequences_is_lazy_witness :
  read_sequences (PyStr "missing.fasta") "fasta" disk =
    (inr (GenCreated (PyStr "missing.fasta") "fasta"), disk)
  ∧ gen_next (GenCreated (PyStr "missing.fasta") "fasta") disk =
      ((Raise (FileNotFoundError "missing.fasta"), GenFinished),
       log (EvOpenFailed ModeRead (FileNotFoundError "missing.fasta")) disk)
  ∧ gen_next (GenCreated (PyStr "a.fasta") "genbank") disk =
      ((Raise unknown_format, GenFinished),
       handle_close (fresh_handle disk)
         (register "a.fasta" ModeRead (fresh_handle disk) (files disk) disk)).
Proof.
  split_and!.
  - apply (read_sequences_is_lazy (PyStr "missing.fasta") "fasta" disk).
  - apply (proj1 (proj2 (read_sequences_is_lazy (PyStr "missing.fasta") "fasta" disk))
             (PyPath "missing.fasta") []).
    + reflexivity.
    + vm_compute. reflexivity.
  - apply (proj2 (proj2 (read_sequences_is_lazy (PyStr "a.fasta") "genbank" disk))
             (PyPath "a.fasta") [] "a.fasta" (fasta_text seq1 +:+ fasta_text seq2)).
    + reflexivity.
    + split_and!; vm_compute; reflexivity.
    + vm_compute. reflexivity.
Defined.

Lemma guard_rejects_single_records_only_witness :
  write_sequences (PyRecord seq1) (PyStr "new.fasta") "fasta" disk =
    (inl single_record_error, disk)
  ∧ ∃ h w',
      write_sequences (PyStr "ACGT") (PyStr "new.fasta") "fasta" disk =
        (outcome (PyStr "ACGT") "fasta", w')
      ∧ trace w' = trace disk ++ [EvOpen "new.fasta" ModeWrite h;
                                  EvWrite h (written (PyStr "ACGT") "fasta");
                                  EvClose h].
Proof.
  split.
  - apply (proj1 (guard_rejects_single_records_only (PyRecord seq1)
                    (PyStr "new.fasta") "fasta" disk)).
    reflexivity.
  - apply (proj2 (guard_rejects_single_records_only (PyStr "ACGT")
                    (PyStr "new.fasta") "fasta" disk)).
    + reflexivity.
    + split; vm_compute; reflexivity.
Defined.

(** A plain string gets past the guard and fails in the codec. *)
Example write_plain_string :
  outcome (PyStr "ACGT") "fasta" = inl no_id_error.
Proof. vm_compute. reflexivity. Qed.

(** ** The further properties on the reference disk *)

Example seq_id_decimal : Tests.seq_id 12 = "SEQ_12".
Proof. vm_compute. reflexivity. Qed.


Lemma write_sequences_failed_open_witness :
  (write_sequences (PyList [PyRecord seq1]) (PyStr "ro/out.fasta") "fasta" disk).1 =
    inl readonly_error
  ∧ files (write_sequences (PyList [PyRecord seq1]) (PyStr "ro/out.fasta")
                           "fasta" disk).2 = files disk
  ∧ open_handles (write_sequences (PyList [PyRecord seq1]) (PyStr "ro/out.fasta")
                                  "fasta" disk).2 = open_handles disk.
Proof.
  apply (write_sequences_failed_open (PyList [PyRecord seq1]) (PyStr "ro/out.fasta")
           "fasta" disk readonly_error
           (log (EvOpenFailed ModeWrite readonly_error) disk)).
  - reflexivity.
  - vm_compute. reflexivity.
Defined.

Lemma write_sequences_twice_witness :
  let w1 := (write_sequences (PyList [PyRecord seq1; PyRecord seq2])
                             (PyStr "new.fasta") "fasta" disk).2 in
  write_sequences (PyList [PyRecord seq3]) (PyStr "new.fasta") "fasta" w1 =
    (outcome (PyList [PyRecord seq3]) "fasta",
     after_write (PyList [PyRecord seq3]) "new.fasta" "fasta" (fresh_handle w1) w1)
  ∧ files (write_sequences (PyList [PyRecord seq3]) (PyStr "new.fasta") "fasta" w1).2 =
      files (write_sequences (PyList [PyRecord seq3]) (PyStr "new.fasta") "fasta" disk).2
  ∧ files (write_sequences (PyList [PyRecord seq3]) (PyStr "new.fasta") "fasta" w1).2
      !! "new.fasta" = Some (written (PyList [PyRecord seq3]) "fasta").
Proof.
  apply (write_sequences_twice (PyList [PyRecord seq1; PyRecord seq2])
           (PyList [PyRecord seq3]) (PyStr "new.fasta") "fasta" "fasta" disk
           "new.fasta").
  - reflexivity.
  - reflexivity.
  - split; vm_compute; reflexivity.
Defined.

Lemma read_after_write_witness :
  let w1 := (write_sequences (PyList [PyRecord seq1; PyNone]) (PyStr "./new.fasta")
                             "fasta" disk).2 in
  (consume 5 (GenCreated (PyStr "./new.fasta") "fasta") w1).1 = ([seq1], Exhausted).
Proof.
  apply (read_after_write (PyList [PyRecord seq1; PyNone]) (PyStr "./new.fasta")
           "fasta" "fasta" disk "new.fasta" [seq1] 5%nat).
  - exact posix_sound.
  - reflexivity.
  - split; vm_compute; reflexivity.
  - vm_compute. reflexivity.
  - vm_compute. reflexivity.
  - simpl. lia.
Defined.

Lemma read_sequences_prefix_witness :
  (consume 4 (GenCreated (PyList revisited) "fasta") disk).1 =
    (take 4 (concat [[seq1; seq2]; [seq3]; [seq1; seq2]]), Unfinished)
  ∧ ∀ first others,
      concat [[seq1; seq2]; [seq3]; [seq1; seq2]] = first :: others →
      (gen_next (GenCreated (PyList revisited) "fasta") disk).1.1 = Yield first.
Proof.
  apply (read_sequences_prefix "fasta" disk revisited
           [[seq1; seq2]; [seq3]; [seq1; seq2]] 4%nat).
  - repeat constructor.
    + exists "a.fasta", (fasta_text seq1 +:+ fasta_text seq2).
      split; [split_and!|]; vm_compute; reflexivity.
    + exists "b.fasta", (fasta_text seq3).
      split; [split_and!|]; vm_compute; reflexivity.
    + exists "a.fasta", (fasta_text seq1 +:+ fasta_text seq2).
      split; [split_and!|]; vm_compute; reflexivity.
  - simpl. lia.
Defined.

Lemma read_sequences_restartable_witness :
  (consume 10 (GenCreated (PyList revisited) "fasta")
           (handle_close 3 (log (EvWrite 3 "x") disk))).1 =
    (consume 10 (GenCreated (PyList revisited) "fasta") disk).1
  ∧ (consume 10 (GenCreated (PyList revisited) "fasta")
             (gen_steps 2 (GenCreated (PyList revisited) "fasta") disk).2).1 =
      (consume 10 (GenCreated (PyList revisited) "fasta") disk).1.
Proof.
  destruct (read_sequences_restartable (PyList revisited) "fasta" 10%nat disk)
    as [Hsame Hagain].
  split.
  - apply Hsame. split_and!; reflexivity.
  - apply (Hagain O 2%nat).
Defined.

Lemma gen_next_own_handle_witness :
  let gw := gen_steps 1 (GenCreated (PyList revisited) "fasta") disk in
  open_handles (gen_next gw.1 gw.2).2 =
    (open_handles gw.2 ∖ held gw.1) ∪ held (gen_next gw.1 gw.2).1.2
  ∧ held (gen_next gw.1 gw.2).1.2 ## open_handles gw.2 ∖ held gw.1
  ∧ open_handles (gen_close gw.1 gw.2).2 = open_handles gw.2 ∖ held gw.1.
Proof.
  intros gw. apply (gen_next_own_handle gw.1 gw.2).
  apply (bool_decide_unpack _). vm_compute. exact I.
Defined.
